(** * Store Finder API: the product-search algorithm of [main.py]

    A shallow embedding of [haversine] and [search_product] and the
    properties of the search that the specification states.

    Modelling conventions.
    - A Python [float] is modelled by the real number it stands for, and
      float arithmetic and the [math] functions by their exact counterparts
      on [R].  Rounding error of binary floating point is outside the model.
    - A Python exception is an explicit [Raise] outcome.
    - A stored document is a record whose optional keys are [option] fields:
      [None] is "key absent", the case the code's [.get(key, default)] calls
      are written for.  A key that is present holds a value of the type
      [schemas.py] gives it (a text title, a number for quantity and price);
      what ["coordinates"] holds is left open, as the loop tests it.
    - Text is a [string] holding the bytes of its UTF-8 encoding, in which
      one text occurs in another exactly when its bytes do.  [lower()] is
      written out for the letters A-Z; what it does to other letters is left
      to a parameter, the case tables of Unicode. *)

From Stdlib Require Import Reals Lra Lia ZArith List String Ascii Bool.
From Stdlib Require Import Sorting.Sorted Sorting.Permutation.
Import ListNotations.

(* ================================================================= *)
(** ** The Python run time, as far as the search uses it *)

Module Py.

Inductive exn : Type :=
| TypeError
| ValueError
| ValidationError
| IndexError
| HTTPException (status_code : Z).

Inductive result (A : Type) : Type :=
| Ok (a : A)
| Raise (e : exn).

Arguments Ok {A} a.
Arguments Raise {A} e.

Definition bind {A B : Type} (m : result A) (k : A -> result B) : result B :=
  match m with
  | Ok a => k a
  | Raise e => Raise e
  end.

(** A number is an [int] or a [float]. *)
Inductive number : Type :=
| NInt (z : Z)
| NFloat (r : R).

(** A scalar that a stored array may hold. *)
Inductive scalar : Type :=
| SNone
| SNum (n : number)
| SStr (s : string).

Definition to_R (n : number) : R :=
  match n with
  | NInt z => IZR z
  | NFloat r => r
  end.

(** Comparisons of floats, as booleans. *)
Definition Rltb (x y : R) : bool := if Rlt_dec x y then true else false.
Definition Rleb (x y : R) : bool := if Rle_dec x y then true else false.

(** [a < b] and [a > b] on numbers: Python compares an int with a float by
    value. *)
Definition num_lt (a b : number) : bool := Rltb (to_R a) (to_R b).
Definition num_gt (a b : number) : bool := Rltb (to_R b) (to_R a).

(** [float(n)] and [int(n)] ([int] truncates towards zero). *)
Definition float_of (n : number) : R := to_R n.

Definition trunc (r : R) : Z :=
  if Rle_dec 0 r then Int_part r else (- Int_part (- r))%Z.

Definition int_of (n : number) : Z :=
  match n with
  | NInt z => z
  | NFloat r => trunc r
  end.

(** [round(x, ndigits)]: to the nearest multiple of [10^-ndigits], a tie
    going to the even one. *)
Definition round_half_even (y : R) : Z :=
  let f := Int_part y in
  let d := (y - IZR f)%R in
  if Rlt_dec d (1/2) then f
  else if Rlt_dec (1/2) d then (f + 1)%Z
  else if Z.even f then f else (f + 1)%Z.

Definition round (x : R) (ndigits : nat) : R :=
  (IZR (round_half_even (x * 10 ^ ndigits)) / 10 ^ ndigits)%R.

(** [math.radians], [math.sqrt] and [math.asin]; the last two raise
    [ValueError] outside their domain, the first [TypeError] on what is not
    a number. *)
Definition radians (x : scalar) : result R :=
  match x with
  | SNum n => Ok (to_R n * (PI / 180))%R
  | _ => Raise TypeError
  end.

Definition sqrt (x : R) : result R :=
  if Rlt_dec x 0 then Raise ValueError else Ok (R_sqrt.sqrt x).

Definition asin (x : R) : result R :=
  if Rlt_dec x (-1) then Raise ValueError
  else if Rlt_dec 1 x then Raise ValueError
  else Ok (Ratan.asin x).

(** [str.lower()].  On text of ASCII characters it turns the letters A-Z
    into a-z, which [lower_letters] writes out.  On other text it does the
    same to these letters and lowers the remaining letters by the case
    tables of Unicode; [fold] stands for that part, and nothing is assumed
    of it. *)
Class Unicode : Type := { fold : string -> string }.

Definition lower_ascii (c : ascii) : ascii :=
  let n := nat_of_ascii c in
  if (65 <=? n)%nat && (n <=? 90)%nat then ascii_of_nat (n + 32) else c.

Fixpoint lower_letters (s : string) : string :=
  match s with
  | EmptyString => EmptyString
  | String c s' => String (lower_ascii c) (lower_letters s')
  end.

Definition ascii_char (c : ascii) : bool := (nat_of_ascii c <? 128)%nat.

Fixpoint is_ascii_text (s : string) : bool :=
  match s with
  | EmptyString => true
  | String c s' => ascii_char c && is_ascii_text s'
  end.

Definition lower `{Unicode} (s : string) : string :=
  if is_ascii_text s then lower_letters s else fold (lower_letters s).

(** [needle in hay] on strings: [needle] occurs at some position. *)
Fixpoint starts_with (needle hay : string) : bool :=
  match needle, hay with
  | EmptyString, _ => true
  | String _ _, EmptyString => false
  | String a n', String b h' => Ascii.eqb a b && starts_with n' h'
  end.

Fixpoint contains (needle hay : string) : bool :=
  starts_with needle hay ||
  match hay with
  | EmptyString => false
  | String _ h' => contains needle h'
  end.

(** [sorted(l, key=key)] and [list.sort(key=key)]: a stable sort that
    only ever asks [key y < key x].  Insertion from the right is the
    stable sort written out. *)
Section Sorted.
Variables (A K : Type) (lt : K -> K -> bool) (key : A -> K).

Fixpoint insert (x : A) (l : list A) : list A :=
  match l with
  | [] => [x]
  | y :: l' => if lt (key y) (key x) then y :: insert x l' else x :: l
  end.

Definition sorted (l : list A) : list A := fold_right insert [] l.
End Sorted.

Arguments insert {A K} lt key x l.
Arguments sorted {A K} lt key l.

(** [<] on pairs of floats: the first components decide unless equal. *)
Definition Reqb (x y : R) : bool := if Req_dec_T x y then true else false.

Definition pair_lt (p q : R * R) : bool :=
  if Reqb (fst p) (fst q) then Rltb (snd p) (snd q)
  else Rltb (fst p) (fst q).

End Py.

Import Py.

Declare Scope py_scope.
Delimit Scope py_scope with py.
Notation "x <- m ;; k" := (bind m (fun x => k))
  (at level 61, m at next level, right associativity) : py_scope.
Open Scope py_scope.
Open Scope R_scope.

(* ================================================================= *)
(** ** [haversine] *)

Definition haversine (lon1 lat1 lon2 lat2 : scalar) : result R :=
  (* convert decimal degrees to radians *)
  lon1 <- radians lon1 ;;
  lat1 <- radians lat1 ;;
  lon2 <- radians lon2 ;;
  lat2 <- radians lat2 ;;
  (* haversine formula *)
  let dlon := lon2 - lon1 in
  let dlat := lat2 - lat1 in
  let a := sin (dlat / 2) ^ 2 + cos lat1 * cos lat2 * sin (dlon / 2) ^ 2 in
  r <- Py.sqrt a ;;
  s <- Py.asin r ;;
  let c := 2 * s in
  let km := 6367 * c in
  Ok km.

(** A coordinate of the data model, in decimal degrees, and the distance
    function of the specification on it. *)
Record Coordinate : Type := { lon : R; lat : R }.

Definition deg (x : R) : scalar := SNum (NFloat x).

Definition distance (a b : Coordinate) : result R :=
  haversine (deg (lon a)) (deg (lat a)) (deg (lon b)) (deg (lat b)).

(* ================================================================= *)
(** ** The stored documents and the response model *)

(** [d.get(key, default)] on an optional key. *)
Definition get {A : Type} (field : option A) (default : A) : A :=
  match field with
  | Some v => v
  | None => default
  end.

(** An inventory entry, [{product_title, quantity, price}]: each key may be
    absent. *)
Module Item.
Record t : Type := mk {
  product_title : option string;
  quantity : option number;
  price : option number
}.
End Item.

(** The value under ["coordinates"]: [null], or an array of scalars of any
    length. *)
Inductive coords : Type :=
| CNull
| CArray (l : list scalar).

Module Location.
Record t : Type := mk { coordinates : option coords }.
End Location.

Module Store.
Record t : Type := mk {
  _id : string;
  name : string;
  address : string;
  location : option Location.t;
  inventory : option (list Item.t)
}.
End Store.

Record ProductSearchResponse : Type := {
  store_id : string;
  store_name : string;
  address : string;
  distance_km : R;
  product_title : string;
  price : R;
  quantity : Z
}.

(* ================================================================= *)
(** ** [search_product] *)

(** [s.get("location", {}).get("coordinates", [None, None])] *)
Definition get_coordinates (s : Store.t) : coords :=
  match Store.location s with
  | Some loc => get (Location.coordinates loc) (CArray [SNone; SNone])
  | None => CArray [SNone; SNone]
  end.

(** The condition of the comprehension that builds [matches]. *)
Definition is_match `{Unicode} (q : string) (item : Item.t) : bool :=
  contains (lower q) (lower (get (Item.product_title item) ""%string))
  && num_gt (get (Item.quantity item) (NInt 0)) (NInt 0).

Definition matches `{Unicode} (q : string) (s : Store.t) : list Item.t :=
  filter (is_match q) (get (Store.inventory s) []).

(** [lambda x: x.get("price", 0)] *)
Definition price_key (x : Item.t) : number := get (Item.price x) (NInt 0).

(** [sorted(matches, key=lambda x: x.get("price", 0))[0]] *)
Definition best_offer (matches : list Item.t) : result Item.t :=
  match sorted num_lt price_key matches with
  | best :: _ => Ok best
  | [] => Raise IndexError
  end.

(** Building the response validates [product_title: str]: a missing title
    reaches the model as [None] and is refused. *)
Definition make_response (s : Store.t) (distance : R) (best : Item.t)
  : result ProductSearchResponse :=
  match Item.product_title best with
  | None => Raise ValidationError
  | Some title =>
      Ok {| store_id := Store._id s;
            store_name := Store.name s;
            address := Store.address s;
            distance_km := round distance 2;
            product_title := title;
            price := float_of (get (Item.price best) (NInt 0));
            quantity := int_of (get (Item.quantity best) (NInt 0)) |}
  end.

(** The body of [for s in cursor]: [None] is a store passed over
    ([continue], or the radius test failing), [Some r] an appended result. *)
Definition visit `{Unicode} (q : string) (lat lng radius_km : R) (s : Store.t)
  : result (option ProductSearchResponse) :=
  match get_coordinates s with
  | CNull => Ok None
  | CArray [store_lng; store_lat] =>
      distance <- haversine (deg lng) (deg lat) store_lng store_lat ;;
      if Rleb distance radius_km then
        (* Find best matching inventory item *)
        match matches q s with
        | [] => Ok None
        | _ :: _ =>
            (* Choose the cheapest option *)
            best <- best_offer (matches q s) ;;
            r <- make_response s distance best ;;
            Ok (Some r)
        end
      else Ok None
  | CArray _ => Ok None
  end.

Fixpoint scan `{Unicode} (q : string) (lat lng radius_km : R)
  (cursor : list Store.t) (results : list ProductSearchResponse)
  : result (list ProductSearchResponse) :=
  match cursor with
  | [] => Ok results
  | s :: cursor' =>
      r <- visit q lat lng radius_km s ;;
      scan q lat lng radius_km cursor'
        match r with
        | Some x => results ++ [x]
        | None => results
        end
  end.

(** [lambda r: (r.distance_km, r.price)] *)
Definition rank_key (r : ProductSearchResponse) : R * R :=
  (distance_km r, price r).

(** The search over the stores the cursor yields: the loop, then the sort
    by distance then price. *)
Definition search_cursor `{Unicode} (q : string) (lat lng radius_km : R)
  (cursor : list Store.t) : result (list ProductSearchResponse) :=
  results <- scan q lat lng radius_km cursor [] ;;
  Ok (sorted pair_lt rank_key results).

(* ================================================================= *)
(** ** The query sent to the database

    [db["store"].find({"inventory": {"$elemMatch": {"product_title":
    {"$regex": q, "$options": "i"}, "quantity": {"$gt": 0}}}})].

    The query string is handed to the database as a regular expression.
    The model reads the patterns of a fragment of the PCRE syntax: ASCII
    characters standing for themselves, [.], the anchors [^] and [$], a
    backslash before a punctuation character, and one of [*], [+], [?]
    after a character or a dot.  On any other pattern [parse] answers
    [None] and the model says nothing. *)

Module Mongo.

Inductive atom : Type :=
| Lit (c : ascii)
| AnyChar
| Bol
| Eol.

Inductive piece : Type :=
| One (a : atom)
| Star (a : atom)
| Plus (a : atom)
| Opt (a : atom).

Definition regex : Type := list piece.

Definition is_alnum (c : ascii) : bool :=
  let n := nat_of_ascii c in
  ((48 <=? n) && (n <=? 57) || (65 <=? n) && (n <=? 90)
   || (97 <=? n) && (n <=? 122))%nat.

Definition is_ascii (c : ascii) : bool := (nat_of_ascii c <? 128)%nat.

(** A quantifier applies to the piece read last, when that is one
    character or one dot not yet quantified. *)
Definition quantify (q : atom -> piece) (acc : list piece)
  : option (list piece) :=
  match acc with
  | One (Lit c) :: acc' => Some (q (Lit c) :: acc')
  | One AnyChar :: acc' => Some (q AnyChar :: acc')
  | _ => None
  end.

(** Reads the pattern left to right; [acc] holds the pieces read so far,
    the last one first, and [esc] says a backslash was just read. *)
Fixpoint parse_from (p : string) (acc : list piece) (esc : bool)
  : option regex :=
  match p with
  | EmptyString => if esc then None else Some (rev acc)
  | String c p' =>
      if negb (is_ascii c) then None
      else if esc then
        if is_alnum c then None else parse_from p' (One (Lit c) :: acc) false
      else if Ascii.eqb c "\" then parse_from p' acc true
      else if Ascii.eqb c "." then parse_from p' (One AnyChar :: acc) false
      else if Ascii.eqb c "^" then parse_from p' (One Bol :: acc) false
      else if Ascii.eqb c "$" then parse_from p' (One Eol :: acc) false
      else if Ascii.eqb c "*" then
        match quantify Star acc with
        | Some acc' => parse_from p' acc' false
        | None => None
        end
      else if Ascii.eqb c "+" then
        match quantify Plus acc with
        | Some acc' => parse_from p' acc' false
        | None => None
        end
      else if Ascii.eqb c "?" then
        match quantify Opt acc with
        | Some acc' => parse_from p' acc' false
        | None => None
        end
      else if existsb (Ascii.eqb c) ["["; "]"; "("; ")"; "{"; "}"; "|"]%char
      then None
      else parse_from p' (One (Lit c) :: acc) false
  end.

Definition parse (p : string) : option regex := parse_from p [] false.

Definition newline : ascii := ascii_of_nat 10.

(** One subject character against a character or a dot, letter case
    ignored (option [i]); the dot refuses the newline. *)
Definition atom_ok (a : atom) (c : ascii) : bool :=
  match a with
  | Lit x => Ascii.eqb (lower_ascii x) (lower_ascii c)
  | AnyChar => negb (Ascii.eqb c newline)
  | Bol | Eol => false
  end.

(** [$] holds at the end of the subject and before a newline that ends
    it. *)
Definition at_end (s : string) : bool :=
  match s with
  | EmptyString => true
  | String c EmptyString => Ascii.eqb c newline
  | _ => false
  end.

(** Does [re] match a prefix of [s]?  [bol] says [s] is the whole
    subject. *)
Fixpoint match_here (re : regex) : bool -> string -> bool :=
  match re with
  | [] => fun _ _ => true
  | One Bol :: re' => fun bol s => bol && match_here re' bol s
  | One Eol :: re' => fun bol s => at_end s && match_here re' bol s
  | One a :: re' => fun _ s =>
      match s with
      | String c s' => atom_ok a c && match_here re' false s'
      | EmptyString => false
      end
  | Star a :: re' =>
      fix star (bol : bool) (s : string) {struct s} : bool :=
        match_here re' bol s ||
        match s with
        | String c s' => atom_ok a c && star false s'
        | EmptyString => false
        end
  | Plus a :: re' => fun _ s =>
      match s with
      | String c s' =>
          atom_ok a c &&
          (fix star (s : string) {struct s} : bool :=
             match_here re' false s ||
             match s with
             | String c s' => atom_ok a c && star s'
             | EmptyString => false
             end) s'
      | EmptyString => false
      end
  | Opt a :: re' => fun bol s =>
      match_here re' bol s ||
      match s with
      | String c s' => atom_ok a c && match_here re' false s'
      | EmptyString => false
      end
  end.

(** An unanchored search: a match starting at some position. *)
Fixpoint search_from (re : regex) (bol : bool) (s : string) : bool :=
  match_here re bol s ||
  match s with
  | String _ s' => search_from re false s'
  | EmptyString => false
  end.

Definition regex_search (re : regex) (s : string) : bool :=
  search_from re true s.

(** The [$elemMatch] condition on one inventory entry; a condition on an
    absent key fails. *)
Definition elem_match (re : regex) (item : Item.t) : bool :=
  match Item.product_title item, Item.quantity item with
  | Some title, Some n => regex_search re title && num_gt n (NInt 0)
  | _, _ => false
  end.

Definition selects (re : regex) (s : Store.t) : bool :=
  existsb (elem_match re) (get (Store.inventory s) []).

(** The cursor of the query over the collection; [None] for a pattern
    outside the fragment. *)
Definition find (q : string) (collection : list Store.t)
  : option (list Store.t) :=
  match parse q with
  | Some re => Some (filter (selects re) collection)
  | None => None
  end.

End Mongo.

(** [search_product]: the guard on [db], the query, the loop and the
    sort.  [db] is [None] when the database is not configured, else the
    store collection.  The outer [option] is [None] where [Mongo.find]
    is. *)
Definition search_product `{Unicode} (db : option (list Store.t))
  (q : string) (lat lng radius_km : R)
  : option (result (list ProductSearchResponse)) :=
  match db with
  | None => Some (Raise (HTTPException 500))
  | Some collection =>
      match Mongo.find q collection with
      | Some cursor => Some (search_cursor q lat lng radius_km cursor)
      | None => None
      end
  end.

(* ================================================================= *)
(** ** The notions the specification is worded in *)

(** The order a sort by [lt] puts keys in, and the keys it cannot tell
    apart. *)
Definition not_after {K : Type} (lt : K -> K -> bool) (a b : K) : Prop :=
  lt b a = false.

Definition tied {K : Type} (lt : K -> K -> bool) (a b : K) : bool :=
  negb (lt a b) && negb (lt b a).

(** Two characters that differ at most in letter case, and two texts that
    do so position by position. *)
Definition is_upper (c : ascii) : Prop :=
  (65 <= nat_of_ascii c <= 90)%nat.

Definition same_letter (a b : ascii) : Prop :=
  a = b
  \/ (is_upper a /\ nat_of_ascii b = (nat_of_ascii a + 32)%nat)
  \/ (is_upper b /\ nat_of_ascii a = (nat_of_ascii b + 32)%nat).

Inductive same_text : string -> string -> Prop :=
| same_text_nil : same_text EmptyString EmptyString
| same_text_cons a b s t :
    same_letter a b -> same_text s t -> same_text (String a s) (String b t).

(** [query] occurs in [title], letter case ignored: the lowered query
    occurs in the lowered title. *)
Definition ci_substring `{Unicode} (query title : string) : Prop :=
  exists pre post : string,
    lower title = (pre ++ lower query ++ post)%string.


(** The unit price of an entry, 0 for an entry that has none. *)
Definition unit_price (item : Item.t) : R :=
  match Item.price item with
  | Some p => to_R p
  | None => 0
  end.

(** [passes step l l']: going through [l], each element adds to [l'] the
    one thing [step] gives for it, or nothing. *)
Inductive passes {A B : Type} (step : A -> option B -> Prop)
  : list A -> list B -> Prop :=
| passes_nil : passes step [] []
| passes_some a b l l' :
    step a (Some b) -> passes step l l' -> passes step (a :: l) (b :: l')
| passes_none a l l' :
    step a None -> passes step l l' -> passes step (a :: l) l'.

(** The matching policy of the inventory matcher: the title ([""] when the
    entry has none) contains the query, and the quantity ([0] when the
    entry has none) is positive. *)
Definition title_of (item : Item.t) : string :=
  get (Item.product_title item) ""%string.

Definition in_stock (item : Item.t) : Prop :=
  0 < to_R (get (Item.quantity item) (NInt 0)).

Definition match_policy `{Unicode} (query : string) (item : Item.t) : Prop :=
  ci_substring query (title_of item) /\ in_stock item.


(** The ranking of results: by distance, then by price. *)
Definition rank_le (r1 r2 : ProductSearchResponse) : Prop :=
  distance_km r1 < distance_km r2
  \/ (distance_km r1 = distance_km r2 /\ price r1 <= price r2).

Definition has_rank (k : R * R) (r : ProductSearchResponse) : bool :=
  Reqb (distance_km r) (fst k) && Reqb (price r) (snd k).

(** A query without a character that the pattern syntax gives a meaning
    to, and the pattern such a query is: its characters one by one. *)
Definition plain_char (c : ascii) : bool :=
  Mongo.is_ascii c
  && negb (existsb (Ascii.eqb c)
             ["\"; "."; "^"; "$"; "*"; "+"; "?";
              "["; "]"; "("; ")"; "{"; "}"; "|"]%char).

Definition plain_query (q : string) : bool :=
  forallb plain_char (list_ascii_of_string q).

Definition literal (q : string) : Mongo.regex :=
  map (fun c => Mongo.One (Mongo.Lit c)) (list_ascii_of_string q).

(* ================================================================= *)
(** ** Sample documents *)

Definition milk : Item.t :=
  Item.mk (Some "Milk"%string) (Some (NInt 5)) (Some (NFloat 2.5)).

Definition milk_chocolate : Item.t :=
  Item.mk (Some "milk chocolate"%string) (Some (NInt 0)) (Some (NFloat 3)).

Definition widget_front : Item.t :=
  Item.mk (Some "Widget"%string) (Some (NInt 1)) (Some (NFloat 9.99)).

Definition widget_back : Item.t :=
  Item.mk (Some "Widget"%string) (Some (NInt 2)) (Some (NFloat 9.99)).



(** The sample runs are on ASCII text, where [fold] is not called. *)
Definition ascii_only : Unicode := {| fold := fun s => s |}.

Definition at_origin : Location.t :=
  Location.mk (Some (CArray [SNum (NInt 0); SNum (NInt 0)])).

Definition dairy : Store.t :=
  Store.mk "s1" "Dairy" "1 Main St" (Some at_origin)
    (Some [milk; milk_chocolate]).

Definition oat_milk : Item.t :=
  Item.mk (Some "Oat milk"%string) (Some (NInt 2)) (Some (NFloat 1.5)).

Definition grocer : Store.t :=
  Store.mk "s2" "Grocer" "2 High St" (Some at_origin) (Some [oat_milk]).

(** A store due north of the origin, 0.996 km away. *)
Definition north_lat : R := 0.996 * 180 / (6367 * PI).

Definition kiosk : Store.t :=
  Store.mk "s3" "Kiosk" "3 North Rd"
    (Some (Location.mk (Some (CArray [SNum (NInt 0); SNum (NFloat north_lat)]))))
    (Some [milk]).

(** The response for store [s] at distance [d] with best offer [title],
    [p], [n]. *)
Definition response (s : Store.t) (d : R) (title : string) (p : R) (n : Z)
  : ProductSearchResponse :=
  {| store_id := Store._id s;
     store_name := Store.name s;
     address := Store.address s;
     distance_km := round d 2;
     product_title := title;
     price := p;
     quantity := n |}.

Definition coupon : Item.t :=
  Item.mk (Some "$5 coupon"%string) (Some (NInt 1)) (Some (NInt 5)).

Definition stationer : Store.t :=
  Store.mk "s4" "Stationer" "4 Low St" (Some at_origin) (Some [coupon]).

(* ================================================================= *)
(** ** Further notions used by the properties of the whole module *)

Definition is_number (x : scalar) : bool :=
  match x with
  | SNum _ => true
  | _ => false
  end.

(** The coordinates the loop can deal with: [null], an array of a length
    other than two, or two numbers. *)
Definition coords_ok (s : Store.t) : bool :=
  match get_coordinates s with
  | CArray [x; y] => is_number x && is_number y
  | _ => true
  end.

Definition shop_without_location : Store.t :=
  Store.mk "s5" "Shop" "5 Back Ln" None (Some [milk]).

(* ================================================================= *)
(** ** [create_store] *)

(** A value of the request body under a key of ["location"]: [create_store]
    asks whether it is a list and whether it equals ["Point"]. *)
Inductive json : Type :=
| JNull
| JBool (b : bool)
| JNum (n : number)
| JStr (s : string)
| JArray (l : list scalar)
| JObject.

Module NewLocation.
Record t : Type := mk {
  type : option json;
  coordinates : option json
}.
End NewLocation.

(** The request model [StoreCreate]. *)
Module StoreCreate.
Record t : Type := mk {
  name : string;
  address : string;
  city : string;
  country : string;
  location : NewLocation.t;
  inventory : list Item.t
}.
End StoreCreate.

(** [loc.get("type") == "Point"] *)
Definition is_point (loc : NewLocation.t) : bool :=
  match NewLocation.type loc with
  | Some (JStr t) => String.eqb t "Point"
  | _ => false
  end.

(** [isinstance(loc.get("coordinates"), list) and
    len(loc["coordinates"]) == 2] *)
Definition has_two_coordinates (loc : NewLocation.t) : bool :=
  match NewLocation.coordinates loc with
  | Some (JArray l) => (List.length l =? 2)%nat
  | _ => false
  end.

(** [create_store]; [create_document] is the insert operation of the
    database module, which returns the new identifier. *)
Definition create_store (db : option (list Store.t))
  (create_document : string -> StoreCreate.t -> result string)
  (store : StoreCreate.t) : result string :=
  match db with
  | None => Raise (HTTPException 500)
  | Some _ =>
      (* Basic validation for GeoJSON point *)
      let loc := StoreCreate.location store in
      if negb (is_point loc && has_two_coordinates loc)
      then Raise (HTTPException 400)
      else
        store_id <- create_document "store"%string store ;;
        Ok store_id
  end.

(* ================================================================= *)
(** ** [list_stores] *)

(** A document as a Python [dict]: pairs of key and value, the keys
    distinct. *)
Unset Elimination Schemes.
Inductive value : Type :=
| VNone
| VObjectId (hex : string)
| VStr (s : string)
| VNum (n : number)
| VList (l : list value)
| VDoc (d : list (string * value)).
Set Elimination Schemes.

Module Dict.

Definition t : Type := list (string * value).

Definition keys (d : t) : list string := map fst d.

(** [d.get(k)] *)
Fixpoint lookup (d : t) (k : string) : option value :=
  match d with
  | [] => None
  | (k', v) :: d' => if String.eqb k' k then Some v else lookup d' k
  end.

(** [d[k] = v]: the value of an existing key is replaced where it is, a new
    key goes last. *)
Fixpoint set (d : t) (k : string) (v : value) : t :=
  match d with
  | [] => [(k, v)]
  | (k', v') :: d' =>
      if String.eqb k' k then (k, v) :: d' else (k', v') :: set d' k v
  end.

(** [d.pop(k, None)] *)
Fixpoint pop (d : t) (k : string) : t :=
  match d with
  | [] => []
  | (k', v') :: d' => if String.eqb k' k then d' else (k', v') :: pop d' k
  end.

End Dict.

(** [str(v)]: ["None"], the 24 hexadecimal digits of an [ObjectId], a text
    itself; [repr] stands for what Python prints for numbers, lists and
    documents. *)
Definition str (repr : value -> string) (v : value) : string :=
  match v with
  | VNone => "None"%string
  | VObjectId hex => hex
  | VStr s => s
  | _ => repr v
  end.

(** The body of [for s in stores]. *)
Definition convert_id (repr : value -> string) (s : Dict.t) : Dict.t :=
  let s := Dict.set s "id" (VStr (str repr (get (Dict.lookup s "_id") VNone))) in
  Dict.pop s "_id".

(** [list_stores]; [stores] is what [get_documents("store")] returns. *)
Definition list_stores (repr : value -> string) (db : option (list Dict.t))
  : result (list Dict.t) :=
  match db with
  | None => Raise (HTTPException 500)
  | Some stores =>
      (* Convert ObjectId *)
      Ok (map (convert_id repr) stores)
  end.

(* ================================================================= *)
(** ** [test_database] *)

(** The database handle as the report reads it: the [name] attribute, if
    there is one, and what [list_collection_names()] does. *)
Inductive listing : Type :=
| Names (collections : list string)
| Fails (message : string).

Module Database.
Record t : Type := mk {
  name : option string;
  list_collection_names : listing
}.
End Database.

Module Report.
Record t : Type := mk {
  backend : string;
  database : string;
  database_url : option string;
  database_name : option string;
  connection_status : string;
  collections : list string
}.
End Report.

(** [text[:n]] *)
Fixpoint take (n : nat) (text : string) : string :=
  match n, text with
  | S n', String c text' => String c (take n' text')
  | _, _ => EmptyString
  end.

(** The truth value of [os.getenv(name)]: set, and not empty. *)
Definition is_set (variable : option string) : bool :=
  match variable with
  | Some (String _ _) => true
  | _ => false
  end.

Definition test_database (db : option Database.t)
  (DATABASE_URL DATABASE_NAME : option string) : Report.t :=
  let response :=
    Report.mk "✅ Running" "❌ Not Available" None None "Not Connected" [] in
  let response :=
    match db with
    | Some db =>
        let response :=
          Report.mk (Report.backend response) "✅ Available"
            (Some "✅ Configured"%string)
            (Some (get (Database.name db) "✅ Connected"%string))
            "Connected" (Report.collections response) in
        match Database.list_collection_names db with
        | Names collections =>
            Report.mk (Report.backend response) "✅ Connected & Working"
              (Report.database_url response) (Report.database_name response)
              (Report.connection_status response) (firstn 10 collections)
        | Fails message =>
            Report.mk (Report.backend response)
              ("⚠️  Connected but Error: " ++ take 50 message)
              (Report.database_url response) (Report.database_name response)
              (Report.connection_status response) (Report.collections response)
        end
    | None =>
        Report.mk (Report.backend response) "⚠️  Available but not initialized"
          (Report.database_url response) (Report.database_name response)
          (Report.connection_status response) (Report.collections response)
    end in
  let response :=
    Report.mk (Report.backend response) (Report.database response)
      (Some (if is_set DATABASE_URL then "✅ Set" else "❌ Not Set")%string)
      (Report.database_name response)
      (Report.connection_status response) (Report.collections response) in
  let response :=
    Report.mk (Report.backend response) (Report.database response)
      (Report.database_url response)
      (Some (if is_set DATABASE_NAME then "✅ Set" else "❌ Not Set")%string)
      (Report.connection_status response) (Report.collections response) in
  response.

(** Sample request and documents for the remaining endpoints. *)
Definition null_island : StoreCreate.t :=
  StoreCreate.mk "Shop" "5 Back Ln" "Town" "Land"
    (NewLocation.mk (Some (JStr "Point")) (Some (JArray [SNone; SNone])))
    [milk].

Definition raw_store : Dict.t :=
  [("_id", VObjectId "65a1b2c3d4e5f60718293a4b"); ("name", VStr "Dairy")]%string.

(* ================================================================= *)
(** * Properties *)

Section Properties.
Context {tables : Unicode}.

(** ** Comparisons on the reals *)

Lemma Rltb_true x y : Rltb x y = true <-> x < y.
Proof. unfold Rltb; destruct (Rlt_dec x y); split; intros; try easy. Qed.

Lemma Rltb_false x y : Rltb x y = false <-> y <= x.
Proof. unfold Rltb; destruct (Rlt_dec x y); split; intros; try easy; lra. Qed.

Lemma Rleb_true x y : Rleb x y = true <-> x <= y.
Proof. unfold Rleb; destruct (Rle_dec x y); split; intros; try easy. Qed.

Lemma Rleb_false x y : Rleb x y = false <-> y < x.
Proof. unfold Rleb; destruct (Rle_dec x y); split; intros; try easy; lra. Qed.

Lemma Reqb_true x y : Reqb x y = true <-> x = y.
Proof. unfold Reqb; destruct (Req_dec_T x y); split; intros; try easy. Qed.

Lemma Reqb_false x y : Reqb x y = false <-> x <> y.
Proof. unfold Reqb; destruct (Req_dec_T x y); split; intros; try easy. Qed.

(** ** The haversine formula in exact arithmetic *)

Lemma sin_sq_bounds x : 0 <= sin x ^ 2 <= 1.
Proof.
  pose proof (SIN_bound x) as [Hl Hu]. split.
  - apply pow2_ge_0.
  - replace 1 with (1 ^ 2) by ring. apply pow_maj_Rabs. apply Rabs_le. lra.
Qed.

Lemma cos_cos_hav x y :
  cos x * cos y = 1 - sin ((y - x) / 2) ^ 2 - sin ((x + y) / 2) ^ 2.
Proof.
  assert (Hm : cos (y - x) = 1 - 2 * sin ((y - x) / 2) ^ 2).
  { replace (y - x) with (2 * ((y - x) / 2)) at 1 by field.
    rewrite cos_2a_sin. ring. }
  assert (Hp : cos (x + y) = 1 - 2 * sin ((x + y) / 2) ^ 2).
  { replace (x + y) with (2 * ((x + y) / 2)) at 1 by field.
    rewrite cos_2a_sin. ring. }
  rewrite cos_minus in Hm. rewrite cos_plus in Hp. lra.
Qed.

(** The argument of the square root lies in [[0, 1]], whatever the angles. *)
Lemma hav_arg_bounds lon1 lat1 lon2 lat2 :
  0 <= sin ((lat2 - lat1) / 2) ^ 2
       + cos lat1 * cos lat2 * sin ((lon2 - lon1) / 2) ^ 2 <= 1.
Proof.
  rewrite cos_cos_hav.
  pose proof (sin_sq_bounds ((lat2 - lat1) / 2)) as Hu.
  pose proof (sin_sq_bounds ((lat1 + lat2) / 2)) as Hv.
  pose proof (sin_sq_bounds ((lon2 - lon1) / 2)) as Hh.
  set (u := sin ((lat2 - lat1) / 2) ^ 2) in *.
  set (v := sin ((lat1 + lat2) / 2) ^ 2) in *.
  set (h := sin ((lon2 - lon1) / 2) ^ 2) in *.
  split; nra.
Qed.

Lemma py_sqrt_ok x : 0 <= x -> Py.sqrt x = Ok (R_sqrt.sqrt x).
Proof. intros Hx. unfold Py.sqrt. destruct (Rlt_dec x 0); [lra | reflexivity]. Qed.

Lemma py_asin_ok x : -1 <= x <= 1 -> Py.asin x = Ok (Ratan.asin x).
Proof.
  intros Hx. unfold Py.asin.
  destruct (Rlt_dec x (-1)); [lra|]. destruct (Rlt_dec 1 x); [lra | reflexivity].
Qed.

Lemma sqrt_unit x : 0 <= x <= 1 -> 0 <= R_sqrt.sqrt x <= 1.
Proof.
  intros [H0 H1]. split; [apply sqrt_pos|].
  rewrite <- sqrt_1. apply sqrt_le_1_alt. exact H1.
Qed.

(** On numbers the distance function returns: in exact arithmetic neither
    [math.sqrt] nor [math.asin] leaves its domain. *)
Lemma haversine_numbers (lon1 lat1 lon2 lat2 : number) :
  let x1 := to_R lon1 * (PI / 180) in
  let y1 := to_R lat1 * (PI / 180) in
  let x2 := to_R lon2 * (PI / 180) in
  let y2 := to_R lat2 * (PI / 180) in
  haversine (SNum lon1) (SNum lat1) (SNum lon2) (SNum lat2)
  = Ok (6367 * (2 * Ratan.asin (R_sqrt.sqrt
         (sin ((y2 - y1) / 2) ^ 2 + cos y1 * cos y2 * sin ((x2 - x1) / 2) ^ 2)))).
Proof.
  intros x1 y1 x2 y2. unfold haversine. cbn [radians bind].
  fold x1 y1 x2 y2.
  pose proof (hav_arg_bounds x1 y1 x2 y2) as Ha.
  rewrite py_sqrt_ok by apply Ha. cbn [bind].
  rewrite py_asin_ok; [reflexivity|].
  pose proof (sqrt_unit _ Ha). lra.
Qed.

Lemma haversine_same_point (lon1 lat1 lon2 lat2 : number) :
  to_R lon1 = to_R lon2 -> to_R lat1 = to_R lat2 ->
  haversine (SNum lon1) (SNum lat1) (SNum lon2) (SNum lat2) = Ok 0.
Proof.
  intros Hx Hy. rewrite haversine_numbers. cbv zeta. rewrite Hx, Hy.
  f_equal.
  replace ((to_R lat2 * (PI / 180) - to_R lat2 * (PI / 180)) / 2) with 0 by field.
  replace ((to_R lon2 * (PI / 180) - to_R lon2 * (PI / 180)) / 2) with 0 by field.
  rewrite sin_0.
  replace (0 ^ 2 + cos (to_R lat2 * (PI / 180)) * cos (to_R lat2 * (PI / 180)) * 0 ^ 2)
    with 0 by ring.
  rewrite sqrt_0, asin_0. ring.
Qed.

(** C8: the distance function is symmetric, and zero between a point and
    itself. *)
Theorem distance_symmetric_and_zero (a b : Coordinate) :
  distance a b = distance b a /\ distance a a = Ok 0.
Proof.
  split.
  - unfold distance, deg. rewrite !haversine_numbers. cbv zeta. cbn [to_R].
    do 4 f_equal.
    set (xa := lon a * (PI / 180)). set (ya := lat a * (PI / 180)).
    set (xb := lon b * (PI / 180)). set (yb := lat b * (PI / 180)).
    replace ((ya - yb) / 2) with (- ((yb - ya) / 2)) by field.
    replace ((xa - xb) / 2) with (- ((xb - xa) / 2)) by field.
    rewrite !sin_neg. f_equal. ring.
  - unfold distance, deg. apply haversine_same_point; reflexivity.
Qed.

(** ** The stable sort *)

Section SortedFacts.
Variables (A K : Type) (lt : K -> K -> bool) (key : A -> K).
Hypothesis lt_asym : forall a b, lt a b = true -> lt b a = false.
Hypothesis lt_negtrans :
  forall a b c, lt a b = false -> lt b c = false -> lt a c = false.

Lemma insert_perm x l : Permutation (insert lt key x l) (x :: l).
Proof.
  induction l as [|y l IH]; cbn; [reflexivity|].
  destruct (lt (key y) (key x)); [|reflexivity].
  rewrite IH. apply perm_swap.
Qed.

Lemma sorted_perm l : Permutation (sorted lt key l) l.
Proof.
  induction l as [|x l IH]; cbn; [reflexivity|].
  rewrite insert_perm. now apply perm_skip.
Qed.

Lemma insert_sorted x l :
  StronglySorted (fun a b => not_after lt (key a) (key b)) l ->
  StronglySorted (fun a b => not_after lt (key a) (key b)) (insert lt key x l).
Proof.
  unfold not_after.
  induction 1 as [|y l Hs IH Hy]; cbn.
  - repeat constructor.
  - destruct (lt (key y) (key x)) eqn:E.
    + constructor; [exact IH|].
      rewrite insert_perm. constructor; [now apply lt_asym | exact Hy].
    + constructor; [now constructor|].
      constructor; [exact E|].
      rewrite Forall_forall in *. intros z Hz.
      apply lt_negtrans with (key y); [now apply Hy | exact E].
Qed.

Lemma sorted_sorted l :
  StronglySorted (fun a b => not_after lt (key a) (key b)) (sorted lt key l).
Proof.
  induction l as [|x l IH]; cbn; [constructor | now apply insert_sorted].
Qed.

Lemma insert_tied k x l :
  filter (fun a => tied lt k (key a)) (insert lt key x l)
  = filter (fun a => tied lt k (key a)) (x :: l).
Proof.
  induction l as [|y l IH]; [reflexivity|].
  cbn [insert]. destruct (lt (key y) (key x)) eqn:E; [|reflexivity].
  cbn [filter] in *. rewrite IH.
  destruct (tied lt k (key x)) eqn:Ex, (tied lt k (key y)) eqn:Ey;
    try reflexivity.
  unfold tied in Ex, Ey.
  apply andb_true_iff in Ex as [Ex _], Ey as [_ Ey].
  apply negb_true_iff in Ex, Ey.
  rewrite (lt_negtrans _ _ _ Ey Ex) in E. discriminate.
Qed.

(** Stability: the elements of one key class keep their order. *)
Lemma sorted_stable k l :
  filter (fun a => tied lt k (key a)) (sorted lt key l)
  = filter (fun a => tied lt k (key a)) l.
Proof.
  induction l as [|x l IH]; [reflexivity|].
  cbn [sorted fold_right]. rewrite insert_tied.
  cbn [filter]. fold (sorted lt key l). now rewrite IH.
Qed.

(** The head of the sorted list is the first element of least key. *)
Lemma sorted_head l best rest :
  sorted lt key l = best :: rest ->
  exists pre post,
    l = pre ++ best :: post
    /\ Forall (fun m => lt (key best) (key m) = true) pre
    /\ Forall (fun m => lt (key m) (key best) = false) post.
Proof.
  revert best rest. induction l as [|x l IH]; intros best rest H; [discriminate|].
  cbn [sorted fold_right] in H. fold (sorted lt key l) in H.
  destruct (sorted lt key l) as [|b r] eqn:Es.
  - assert (l = []) as ->.
    { apply Permutation_nil. rewrite <- Es. apply sorted_perm. }
    cbn in H. injection H as <- <-.
    exists [], []. repeat split; constructor.
  - destruct (IH b r eq_refl) as (pre & post & Hl & Hpre & Hpost).
    cbn [insert] in H. destruct (lt (key b) (key x)) eqn:E.
    + injection H as <- <-.
      exists (x :: pre), post. subst l. repeat split; auto.
    + injection H as <- <-.
      exists [], l. repeat split; [constructor|].
      subst l. rewrite Forall_app, Forall_cons_iff. repeat split.
      * eapply Forall_impl; [|exact Hpre]. cbn. intros m Hm.
        apply lt_negtrans with (key b); [now apply lt_asym | exact E].
      * exact E.
      * eapply Forall_impl; [|exact Hpost]. cbn. intros m Hm.
        now apply lt_negtrans with (key b).
Qed.


Lemma sorted_nonempty l : l <> [] -> sorted lt key l <> [].
Proof.
  intros Hl Hs. apply Hl. apply Permutation_nil. rewrite <- Hs.
  apply sorted_perm.
Qed.

End SortedFacts.

(** The sort reads its elements through [key] alone. *)
Lemma sorted_map (A B K : Type) (lt : K -> K -> bool)
  (key : A -> K) (key' : B -> K) (f : A -> B) (l : list A) :
  (forall x, key' (f x) = key x) ->
  sorted lt key' (map f l) = map f (sorted lt key l).
Proof.
  intros Hk. induction l as [|x l IH]; [reflexivity|].
  cbn [map sorted fold_right]. fold (sorted lt key' (map f l)).
  fold (sorted lt key l). rewrite IH.
  generalize (sorted lt key l) as s. induction s as [|y s IHs]; [reflexivity|].
  cbn [map insert]. rewrite !Hk.
  destruct (lt (key y) (key x)); cbn [map]; [now rewrite IHs | reflexivity].
Qed.

Lemma num_lt_asym a b : num_lt a b = true -> num_lt b a = false.
Proof. unfold num_lt. rewrite Rltb_true, Rltb_false. lra. Qed.

Lemma num_lt_negtrans a b c :
  num_lt a b = false -> num_lt b c = false -> num_lt a c = false.
Proof. unfold num_lt. rewrite !Rltb_false. lra. Qed.

Lemma pair_lt_spec p q :
  pair_lt p q = true <->
  fst p < fst q \/ (fst p = fst q /\ snd p < snd q).
Proof.
  unfold pair_lt. destruct (Reqb (fst p) (fst q)) eqn:E.
  - apply Reqb_true in E. rewrite Rltb_true. lra.
  - apply Reqb_false in E. rewrite Rltb_true. lra.
Qed.

Lemma pair_lt_false p q :
  pair_lt p q = false <->
  fst q < fst p \/ (fst p = fst q /\ snd q <= snd p).
Proof.
  unfold pair_lt. destruct (Reqb (fst p) (fst q)) eqn:E.
  - apply Reqb_true in E. rewrite Rltb_false. lra.
  - apply Reqb_false in E. rewrite Rltb_false. lra.
Qed.

Lemma pair_lt_asym p q : pair_lt p q = true -> pair_lt q p = false.
Proof. rewrite pair_lt_spec, pair_lt_false. lra. Qed.

Lemma pair_lt_negtrans p q r :
  pair_lt p q = false -> pair_lt q r = false -> pair_lt p r = false.
Proof. rewrite !pair_lt_false. lra. Qed.

Lemma tied_pair_lt k r : tied pair_lt k (rank_key r) = has_rank k r.
Proof.
  unfold tied, has_rank, rank_key.
  destruct (pair_lt k (distance_km r, price r)) eqn:E1;
  destruct (pair_lt (distance_km r, price r) k) eqn:E2;
  destruct (Reqb (distance_km r) (fst k)) eqn:E3;
  destruct (Reqb (price r) (snd k)) eqn:E4; try reflexivity; exfalso;
  rewrite ?pair_lt_spec, ?pair_lt_false, ?Reqb_true, ?Reqb_false in *;
  cbn [fst snd] in *; lra.
Qed.

(** ** Text: [lower] and [in] *)

Lemma lower_ascii_same a b : lower_ascii a = lower_ascii b <-> same_letter a b.
Proof.
  unfold lower_ascii, same_letter, is_upper.
  pose proof (nat_ascii_bounded a) as Ba. pose proof (nat_ascii_bounded b) as Bb.
  assert (Inj : forall x y : ascii, nat_of_ascii x = nat_of_ascii y -> x = y).
  { intros x y E. rewrite <- (ascii_nat_embedding x), <- (ascii_nat_embedding y).
    now rewrite E. }
  assert (Up : forall c n, (n < 256)%nat ->
               (ascii_of_nat n = c <-> nat_of_ascii c = n)).
  { intros c n Hn. split; intros E.
    - rewrite <- E. now apply nat_ascii_embedding.
    - rewrite <- E. apply ascii_nat_embedding. }
  destruct ((65 <=? nat_of_ascii a)%nat && (nat_of_ascii a <=? 90)%nat) eqn:Ea;
  destruct ((65 <=? nat_of_ascii b)%nat && (nat_of_ascii b <=? 90)%nat) eqn:Eb;
  rewrite ?andb_true_iff, ?andb_false_iff, ?Nat.leb_le, ?Nat.leb_gt in Ea;
  rewrite ?andb_true_iff, ?andb_false_iff, ?Nat.leb_le, ?Nat.leb_gt in Eb.
  - split.
    + intros E. left. apply Inj.
      apply (f_equal nat_of_ascii) in E.
      rewrite !nat_ascii_embedding in E by lia. lia.
    + intros [->|[[_ H]|[_ H]]]; [reflexivity | lia | lia].
  - rewrite Up by lia. split.
    + intros E. right. left. lia.
    + intros [->|[[_ H]|[H _]]]; lia.
  - split.
    + intros E. symmetry in E. apply Up in E; [|lia]. right. right. lia.
    + intros [->|[[H _]|[_ H]]]; [lia | lia |].
      symmetry. apply Up; lia.
  - split.
    + intros ->. now left.
    + intros [->|[[H _]|[H _]]]; [reflexivity | lia | lia].
Qed.

Lemma lower_same_text s t : lower_letters s = lower_letters t <-> same_text s t.
Proof.
  revert t. induction s as [|a s IH]; intros [|b t]; cbn; split; intros H;
    try discriminate; try constructor; try (inversion H; fail).
  - injection H as Hc Hs. now apply lower_ascii_same.
  - injection H as Hc Hs. now apply IH.
  - inversion H as [|? ? ? ? Hc Hs]; subst.
    f_equal; [now apply lower_ascii_same | now apply IH].
Qed.



Lemma starts_with_spec n h :
  starts_with n h = true <-> exists post, h = (n ++ post)%string.
Proof.
  revert h. induction n as [|a n IH]; intros h; cbn.
  - split; [intros _; now exists h | reflexivity].
  - destruct h as [|b h].
    + split; [discriminate | intros [post H]; discriminate].
    + rewrite andb_true_iff, Ascii.eqb_eq, IH. split.
      * intros [-> [post ->]]. now exists post.
      * intros [post H]. injection H as -> ->. split; [reflexivity | now exists post].
Qed.

Lemma contains_spec n h :
  contains n h = true <-> exists pre post, h = (pre ++ n ++ post)%string.
Proof.
  induction h as [|b h IH]; cbn [contains];
    rewrite orb_true_iff, starts_with_spec.
  - split.
    + intros [[post H]|H]; [|discriminate]. now exists EmptyString, post.
    + intros (pre & post & H). left. destruct pre; [now exists post | discriminate].
  - rewrite IH. split.
    + intros [[post H]|(pre & post & H)].
      * now exists EmptyString, post.
      * exists (String b pre), post. cbn. now rewrite H.
    + intros (pre & post & H). destruct pre as [|c pre].
      * left. now exists post.
      * right. cbn in H. injection H as _ H. now exists pre, post.
Qed.

(** The test [q.lower() in title.lower()] decides the case-insensitive
    substring relation. *)
Lemma contains_lower_spec q t :
  contains (lower q) (lower t) = true <-> ci_substring q t.
Proof. apply contains_spec. Qed.


Lemma same_letter_ascii a b : same_letter a b -> ascii_char a = ascii_char b.
Proof.
  unfold same_letter, is_upper, ascii_char.
  intros [->|[[Ha Hb]|[Hb Ha]]]; [reflexivity| |].
  - rewrite Hb. transitivity true; [|symmetry]; apply Nat.ltb_lt; lia.
  - rewrite Ha. transitivity true; [|symmetry]; apply Nat.ltb_lt; lia.
Qed.

Lemma same_text_ascii s t : same_text s t -> is_ascii_text s = is_ascii_text t.
Proof.
  induction 1 as [|a b s t Hab Hst IH]; [reflexivity|].
  cbn [is_ascii_text]. now rewrite IH, (same_letter_ascii a b Hab).
Qed.

(** Two texts that differ in the case of the letters A-Z only are lowered
    to one text. *)
Lemma lower_of_same_text s t : same_text s t -> lower s = lower t.
Proof.
  intros Hst. unfold lower. rewrite (same_text_ascii s t Hst).
  apply lower_same_text in Hst. now rewrite Hst.
Qed.


(** ** The inventory matcher *)

Lemma is_match_policy q item : is_match q item = true <-> match_policy q item.
Proof.
  unfold is_match, match_policy, title_of, in_stock, num_gt.
  rewrite andb_true_iff, contains_lower_spec, Rltb_true. cbn [to_R].
  reflexivity.
Qed.




(** ** Best-offer selection *)

Lemma price_key_of_price x y :
  Item.price x = Item.price y -> price_key x = price_key y.
Proof. unfold price_key. now intros ->. Qed.

(** The sort key is the unit price. *)
Lemma price_key_unit_price x : to_R (price_key x) = unit_price x.
Proof. unfold price_key, unit_price. now destruct (Item.price x). Qed.

(** The selection returns an entry of the list that no entry undercuts. *)
Lemma best_offer_least (ms : list Item.t) :
  ms <> [] ->
  exists best,
    best_offer ms = Ok best
    /\ In best ms
    /\ Forall (fun m => to_R (price_key best) <= to_R (price_key m)) ms.
Proof.
  intros Hne. unfold best_offer.
  destruct (sorted num_lt price_key ms) as [|best rest] eqn:Es.
  - exfalso. revert Es. now apply sorted_nonempty.
  - destruct (sorted_head _ _ num_lt price_key num_lt_asym num_lt_negtrans
                ms best rest Es) as (pre & post & Hms & Hpre & Hpost).
    exists best. split; [reflexivity|]. split; [rewrite Hms; apply in_elt|].
    rewrite Hms, Forall_app, Forall_cons_iff. repeat split.
    + eapply Forall_impl; [|exact Hpre]. cbn. intros m Hm.
      apply Rltb_true in Hm. lra.
    + lra.
    + eapply Forall_impl; [|exact Hpost]. cbn. intros m Hm.
      now apply Rltb_false in Hm.
Qed.

(** C5: on a non-empty list of matches the selection returns an entry of
    least unit price, the first such in the original order: every entry
    before it costs more, no entry after it costs less.  Entries that agree
    with these on price, whatever their other fields, lead to the entry at
    the same place. *)
Theorem best_offer_first_cheapest (ms : list Item.t) :
  ms <> [] ->
  exists best pre post,
    best_offer ms = Ok best
    /\ ms = pre ++ best :: post
    /\ Forall (fun m => unit_price best < unit_price m) pre
    /\ Forall (fun m => unit_price best <= unit_price m) post
    /\ (forall f : Item.t -> Item.t,
          (forall x, Item.price (f x) = Item.price x) ->
          best_offer (map f ms) = Ok (f best)).
Proof.
  intros Hne. unfold best_offer.
  destruct (sorted num_lt price_key ms) as [|best rest] eqn:Es.
  - exfalso. revert Es. now apply sorted_nonempty.
  - destruct (sorted_head _ _ num_lt price_key num_lt_asym num_lt_negtrans
                ms best rest Es)
      as (pre & post & Hms & Hpre & Hpost).
    exists best, pre, post. repeat split; auto.
    + eapply Forall_impl; [|exact Hpre]. cbn. intros m Hm.
      apply Rltb_true in Hm. now rewrite !price_key_unit_price in Hm.
    + eapply Forall_impl; [|exact Hpost]. cbn. intros m Hm.
      apply Rltb_false in Hm. now rewrite !price_key_unit_price in Hm.
    + intros f Hf.
      rewrite (sorted_map _ _ _ num_lt price_key price_key f ms), Es;
        [reflexivity|].
      intros x. now apply price_key_of_price.
Qed.


(** The tie of the specification: of two entries of one price the
    selection returns the front one. *)
Lemma best_offer_tie : best_offer [widget_front; widget_back] = Ok widget_front.
Proof.
  unfold best_offer. cbn [sorted fold_right insert].
  replace (num_lt (price_key widget_back) (price_key widget_front)) with false;
    [reflexivity|].
  symmetry. apply Rltb_false. cbn. lra.
Qed.




(** ** Rounding *)

Lemma Int_part_bounds y : IZR (Int_part y) <= y < IZR (Int_part y) + 1.
Proof. pose proof (base_Int_part y). lra. Qed.

Lemma round_half_even_near y :
  - (1 / 2) <= IZR (round_half_even y) - y <= 1 / 2.
Proof.
  unfold round_half_even. pose proof (Int_part_bounds y) as Hb.
  destruct (Rlt_dec (y - IZR (Int_part y)) (1 / 2)); [lra|].
  destruct (Rlt_dec (1 / 2) (y - IZR (Int_part y))).
  - rewrite plus_IZR. lra.
  - destruct (Z.even (Int_part y)); [lra|]. rewrite plus_IZR. lra.
Qed.

Lemma round_half_even_at y z :
  IZR z - 1 / 2 < y < IZR z + 1 / 2 -> round_half_even y = z.
Proof.
  intros Hy. pose proof (round_half_even_near y) as Hn.
  apply eq_IZR.
  assert (H : (round_half_even y - z < 1)%Z /\ (z - round_half_even y < 1)%Z).
  { split; apply lt_IZR; rewrite minus_IZR; lra. }
  f_equal. lia.
Qed.

(** Rounding to two decimals moves a value by at most 0.005. *)
Lemma round_2_near x : - 0.005 <= round x 2 - x <= 0.005.
Proof.
  unfold round. pose proof (round_half_even_near (x * 10 ^ 2)) as Hn.
  replace (10 ^ 2) with 100 in * by (simpl; lra). lra.
Qed.

Lemma round_2_zero : round 0 2 = 0.
Proof.
  unfold round. rewrite (round_half_even_at (0 * 10 ^ 2) 0).
  - simpl. lra.
  - simpl. lra.
Qed.

(** ** The loop *)

Lemma haversine_not_numbers lng lat x y :
  match x, y with SNum _, SNum _ => False | _, _ => True end ->
  haversine (deg lng) (deg lat) x y = Raise TypeError.
Proof.
  unfold haversine, deg. cbn [radians bind].
  destruct x as [|n|t]; cbn [radians bind]; try reflexivity.
  destruct y as [|m|t]; cbn [radians bind]; try reflexivity.
  contradiction.
Qed.

(** What an appended result tells about its store. *)
Lemma visit_some q lat lng radius_km s r :
  visit q lat lng radius_km s = Ok (Some r) ->
  exists x y d best,
    get_coordinates s = CArray [x; y]
    /\ haversine (deg lng) (deg lat) x y = Ok d
    /\ d <= radius_km
    /\ best_offer (matches q s) = Ok best
    /\ make_response s d best = Ok r.
Proof.
  unfold visit. destruct (get_coordinates s) as [|[|x [|y [|z l]]]];
    try discriminate.
  destruct (haversine (deg lng) (deg lat) x y) as [d|e] eqn:Eh;
    cbn [bind]; [|discriminate].
  destruct (Rleb d radius_km) eqn:Er; [|discriminate].
  apply Rleb_true in Er.
  destruct (matches q s) as [|m ms] eqn:Em; [discriminate|].
  destruct (best_offer (m :: ms)) as [best|e] eqn:Eb; cbn [bind]; [|discriminate].
  destruct (make_response s d best) as [r'|e] eqn:Emk; cbn [bind]; [|discriminate].
  intros H. injection H as <-. exists x, y, d, best. auto.
Qed.

Lemma scan_acc q lat lng radius_km cursor acc :
  scan q lat lng radius_km cursor acc
  = (emitted <- scan q lat lng radius_km cursor [] ;; Ok (acc ++ emitted)).
Proof.
  revert acc. induction cursor as [|s cursor IH]; intros acc; cbn [scan bind].
  - now rewrite app_nil_r.
  - destruct (visit q lat lng radius_km s) as [[r|]|e]; cbn [bind].
    + rewrite (IH (acc ++ [r])), (IH ([] ++ [r])).
      destruct (scan q lat lng radius_km cursor []); cbn [bind];
        [now rewrite <- app_assoc | reflexivity].
    + apply IH.
    + reflexivity.
Qed.

Lemma scan_results q lat lng radius_km cursor results r :
  scan q lat lng radius_km cursor [] = Ok results -> In r results ->
  exists s, In s cursor /\ visit q lat lng radius_km s = Ok (Some r).
Proof.
  revert results. induction cursor as [|s cursor IH]; intros results H Hin.
  - cbn in H. injection H as <-. contradiction.
  - cbn [scan bind] in H.
    destruct (visit q lat lng radius_km s) as [[r'|]|e] eqn:Ev; cbn [bind] in H.
    + rewrite scan_acc in H.
      destruct (scan q lat lng radius_km cursor []) as [rest|e] eqn:Es;
        cbn [bind] in H; [|discriminate].
      injection H as <-. cbn in Hin. destruct Hin as [<-|Hin].
      * exists s. split; [now left | exact Ev].
      * destruct (IH rest eq_refl Hin) as (s' & Hs' & Hv).
        exists s'. split; [now right | exact Hv].
    + destruct (IH results H Hin) as (s' & Hs' & Hv).
      exists s'. split; [now right | exact Hv].
    + discriminate.
Qed.

(** The guard of the loop passes over a store whose coordinates are [null]
    or an array of a length other than two. *)
Lemma visit_skips_null_and_wrong_length q lat lng radius_km s :
  (get_coordinates s = CNull
   \/ exists l, get_coordinates s = CArray l /\ List.length l <> 2%nat) ->
  visit q lat lng radius_km s = Ok None.
Proof.
  unfold visit. intros [->|(l & -> & Hl)]; [reflexivity|].
  destruct l as [|x [|y [|z l]]]; try reflexivity. now cbn in Hl.
Qed.

(** C1: a store without a ["location"] key, without a ["coordinates"] key,
    or with two coordinates that are not both numbers is not passed over:
    the search ends in [TypeError]. *)
Theorem search_raises_on_unusable_coordinates
  (q : string) (lat lng radius_km : R) (id name address : string)
  (inventory : option (list Item.t)) (rest : list Store.t) :
  search_cursor q lat lng radius_km
    (Store.mk id name address None inventory :: rest) = Raise TypeError
  /\ search_cursor q lat lng radius_km
       (Store.mk id name address (Some (Location.mk None)) inventory :: rest)
     = Raise TypeError
  /\ (forall x y,
        match x, y with SNum _, SNum _ => False | _, _ => True end ->
        search_cursor q lat lng radius_km
          (Store.mk id name address
             (Some (Location.mk (Some (CArray [x; y])))) inventory :: rest)
        = Raise TypeError).
Proof.
  unfold search_cursor. cbn [scan visit get_coordinates Store.location
    Location.coordinates get].
  repeat split; intros; rewrite haversine_not_numbers; auto.
Qed.

(** ** The radius filter *)

Lemma is_match_true q item :
  contains (lower q) (lower (title_of item)) = true ->
  0 < to_R (get (Item.quantity item) (NInt 0)) ->
  is_match q item = true.
Proof. intros Ht Hq. apply is_match_policy. split; [|exact Hq].
  now apply contains_lower_spec. Qed.

Lemma is_match_out_of_stock q item :
  to_R (get (Item.quantity item) (NInt 0)) <= 0 -> is_match q item = false.
Proof.
  intros Hq. unfold is_match, num_gt. cbn [to_R].
  rewrite (proj2 (Rltb_false _ _) Hq). apply andb_false_r.
Qed.

Lemma is_match_other_title q item :
  contains (lower q) (lower (title_of item)) = false -> is_match q item = false.
Proof. intros Ht. unfold is_match. fold (title_of item). now rewrite Ht. Qed.

Lemma matches_milk_dairy : matches "milk" dairy = [milk].
Proof.
  unfold matches. cbn [dairy Store.inventory get filter].
  rewrite is_match_true by (first [reflexivity | cbn; lra]).
  rewrite is_match_out_of_stock by (cbn; lra). reflexivity.
Qed.

(** C4: a store whose distance [d] is computed and which holds a match is
    given a result exactly when [d] is at most [radius_km]; at distance
    [radius_km] it is in, at [radius_km + 0.01] it is out. *)
Theorem radius_filter_inclusive
  (q : string) (lat lng : R) (s : Store.t) (x y : scalar) (d : R) :
  get_coordinates s = CArray [x; y] ->
  haversine (deg lng) (deg lat) x y = Ok d ->
  matches q s <> [] ->
  Forall (fun item => Item.product_title item <> None) (matches q s) ->
  forall radius_km : R,
    ((exists r, visit q lat lng radius_km s = Ok (Some r)) <-> d <= radius_km)
    /\ (radius_km < d -> visit q lat lng radius_km s = Ok None)
    /\ (d = radius_km -> exists r, visit q lat lng radius_km s = Ok (Some r))
    /\ (d = radius_km + 0.01 -> visit q lat lng radius_km s = Ok None).
Proof.
  intros Hc Hd Hm Ht radius_km.
  assert (Hin : d <= radius_km ->
                exists r, visit q lat lng radius_km s = Ok (Some r)).
  { intros Hle. unfold visit. rewrite Hc, Hd. cbn [bind].
    rewrite (proj2 (Rleb_true _ _) Hle).
    destruct (best_offer_least _ Hm) as (best & Hb & Hbest & _).
    destruct (matches q s) as [|m ms] eqn:Em; [contradiction|].
    rewrite Hb. cbn [bind].
    rewrite Forall_forall in Ht. specialize (Ht _ Hbest).
    unfold make_response.
    destruct (Item.product_title best) as [title|]; [|contradiction].
    cbn [bind]. eexists. reflexivity. }
  assert (Hout : radius_km < d -> visit q lat lng radius_km s = Ok None).
  { intros Hlt. unfold visit. rewrite Hc, Hd. cbn [bind].
    now rewrite (proj2 (Rleb_false _ _) Hlt). }
  split; [split|split; [|split]].
  - intros [r Hr]. destruct (Rle_or_lt d radius_km) as [Hle|Hlt]; [exact Hle|].
    rewrite (Hout Hlt) in Hr. discriminate.
  - exact Hin.
  - exact Hout.
  - intros ->. apply Hin. lra.
  - intros ->. apply Hout. lra.
Qed.


(** ** Evaluating the loop on a store in range *)

Lemma visit_in_range q lat lng radius_km s x y d best title :
  get_coordinates s = CArray [x; y] ->
  haversine (deg lng) (deg lat) x y = Ok d ->
  d <= radius_km ->
  matches q s <> [] ->
  best_offer (matches q s) = Ok best ->
  Item.product_title best = Some title ->
  visit q lat lng radius_km s
  = Ok (Some (response s d title
                (float_of (get (Item.price best) (NInt 0)))
                (int_of (get (Item.quantity best) (NInt 0))))).
Proof.
  intros Hc Hd Hle Hm Hb Ht. unfold visit. rewrite Hc, Hd. cbn [bind].
  rewrite (proj2 (Rleb_true _ _) Hle).
  destruct (matches q s) as [|m ms]; [contradiction|].
  rewrite Hb. cbn [bind]. unfold make_response. rewrite Ht. reflexivity.
Qed.

Lemma matches_milk_grocer : matches "milk" grocer = [oat_milk].
Proof.
  unfold matches. cbn [grocer Store.inventory get filter].
  rewrite is_match_true by (first [reflexivity | cbn; lra]). reflexivity.
Qed.

Lemma visit_milk_dairy :
  visit "milk" 0 0 50 dairy = Ok (Some (response dairy 0 "Milk" 2.5 5)).
Proof.
  rewrite (visit_in_range "milk" 0 0 50 dairy (SNum (NInt 0)) (SNum (NInt 0))
             0 milk "Milk"); try reflexivity.
  - apply haversine_same_point; reflexivity.
  - lra.
  - rewrite matches_milk_dairy. discriminate.
  - rewrite matches_milk_dairy. reflexivity.
Qed.

Lemma visit_milk_grocer :
  visit "milk" 0 0 50 grocer = Ok (Some (response grocer 0 "Oat milk" 1.5 2)).
Proof.
  rewrite (visit_in_range "milk" 0 0 50 grocer (SNum (NInt 0)) (SNum (NInt 0))
             0 oat_milk "Oat milk"); try reflexivity.
  - apply haversine_same_point; reflexivity.
  - lra.
  - rewrite matches_milk_grocer. discriminate.
  - rewrite matches_milk_grocer. reflexivity.
Qed.

(** Two stores at one distance: the cheaper comes first, although the
    cursor yields it last. *)
Lemma search_milk_dairy_grocer :
  search_cursor "milk" 0 0 50 [dairy; grocer]
  = Ok [response grocer 0 "Oat milk" 1.5 2; response dairy 0 "Milk" 2.5 5].
Proof.
  unfold search_cursor. cbn [scan].
  rewrite visit_milk_dairy. cbn [bind app]. rewrite visit_milk_grocer.
  cbn [bind app sorted fold_right insert].
  replace (pair_lt (rank_key (response grocer 0 "Oat milk" 1.5 2))
                   (rank_key (response dairy 0 "Milk" 2.5 5))) with true;
    [reflexivity|].
  symmetry. apply pair_lt_spec. cbn. right. split; [reflexivity | lra].
Qed.

(** ** The ranking *)

Lemma StronglySorted_weaken (A : Type) (P Q : A -> A -> Prop) (l : list A) :
  (forall a b, P a b -> Q a b) -> StronglySorted P l -> StronglySorted Q l.
Proof.
  intros HPQ. induction 1 as [|x l Hs IH Hx]; constructor; [exact IH|].
  eapply Forall_impl; [|exact Hx]. intros b. apply HPQ.
Qed.

Lemma StronglySorted_before (A : Type) (P : A -> A -> Prop) l1 x l2 y l3 :
  StronglySorted P (l1 ++ x :: l2 ++ y :: l3) -> P x y.
Proof.
  induction l1 as [|z l1 IH]; cbn; intros H; inversion H as [|? ? Hs Hx]; subst.
  - rewrite Forall_forall in Hx. apply Hx. apply in_elt.
  - now apply IH.
Qed.

Lemma not_after_rank r1 r2 :
  not_after pair_lt (rank_key r1) (rank_key r2) -> rank_le r1 r2.
Proof.
  unfold not_after, rank_le, rank_key. rewrite pair_lt_false. cbn [fst snd].
  intros [H|[H1 H2]]; [now left | right; split; [now symmetry | exact H2]].
Qed.

(** The two ranking cases of the specification: at one distance the
    cheaper result goes first; a nearer result stays ahead of a farther
    one, whatever the prices. *)
Lemma rank_cheaper_first (a b : ProductSearchResponse) :
  distance_km a = distance_km b -> price b < price a ->
  sorted pair_lt rank_key [a; b] = [b; a].
Proof.
  intros Hd Hp. cbn [sorted fold_right insert].
  replace (pair_lt (rank_key b) (rank_key a)) with true; [reflexivity|].
  symmetry. apply pair_lt_spec. cbn. right. split; [now symmetry | exact Hp].
Qed.

Lemma rank_distance_dominates (a b : ProductSearchResponse) :
  distance_km a < distance_km b ->
  sorted pair_lt rank_key [a; b] = [a; b].
Proof.
  intros Hd. cbn [sorted fold_right insert].
  replace (pair_lt (rank_key b) (rank_key a)) with false; [reflexivity|].
  symmetry. apply pair_lt_false. cbn. now left.
Qed.

(** C7: the search returns the results of the loop sorted by distance then
    price: a rearrangement of them in which every result ranks at most as
    high as each later one, results of one distance and price keeping the
    order in which the loop met them. *)
Theorem search_results_ranked
  (q : string) (lat lng radius_km : R) (cursor : list Store.t)
  (out : list ProductSearchResponse) :
  search_cursor q lat lng radius_km cursor = Ok out ->
  exists results,
    scan q lat lng radius_km cursor [] = Ok results
    /\ Permutation results out
    /\ StronglySorted rank_le out
    /\ (forall l1 r1 l2 r2 l3,
          out = l1 ++ r1 :: l2 ++ r2 :: l3 ->
          distance_km r1 <= distance_km r2
          /\ (distance_km r1 = distance_km r2 -> price r1 <= price r2))
    /\ (forall k, filter (has_rank k) out = filter (has_rank k) results).
Proof.
  unfold search_cursor. intros H.
  destruct (scan q lat lng radius_km cursor []) as [results|e]; cbn [bind] in H;
    [|discriminate].
  injection H as <-. exists results.
  assert (Hs : StronglySorted rank_le (sorted pair_lt rank_key results)).
  { eapply StronglySorted_weaken; [apply not_after_rank|].
    apply sorted_sorted; [apply pair_lt_asym | apply pair_lt_negtrans]. }
  repeat split.
  - symmetry. apply sorted_perm.
  - exact Hs.
  - rewrite H in Hs. apply StronglySorted_before in Hs.
    destruct Hs as [Hs|[Hs _]]; lra.
  - rewrite H in Hs. apply StronglySorted_before in Hs.
    destruct Hs as [Hs|[_ Hs]]; lra.
  - intros k.
    rewrite (filter_ext (has_rank k) (fun r => tied pair_lt k (rank_key r)))
      by (intros r; symmetry; apply tied_pair_lt).
    rewrite (filter_ext (has_rank k) (fun r => tied pair_lt k (rank_key r))
               (fun r => eq_sym (tied_pair_lt k r)) results).
    apply sorted_stable. apply pair_lt_negtrans.
Qed.


(** ** The reported distance *)

Lemma PI_gt_3 : 3 < PI.
Proof. pose proof PI2_3_2. lra. Qed.

Lemma haversine_north :
  haversine (deg 0) (deg 0) (SNum (NInt 0)) (SNum (NFloat north_lat)) = Ok 0.996.
Proof.
  unfold deg. rewrite haversine_numbers. cbv zeta. cbn [to_R]. f_equal.
  pose proof PI_gt_3 as HPI.
  assert (Hy : north_lat * (PI / 180) = 0.996 / 6367).
  { unfold north_lat. field. lra. }
  rewrite Hy.
  replace ((0 * (PI / 180) - 0 * (PI / 180)) / 2) with 0 by field.
  replace ((0.996 / 6367 - 0 * (PI / 180)) / 2) with (0.996 / 6367 / 2) by field.
  rewrite sin_0.
  replace (sin (0.996 / 6367 / 2) ^ 2
           + cos (0 * (PI / 180)) * cos (0.996 / 6367) * 0 ^ 2)
    with (sin (0.996 / 6367 / 2) ^ 2) by ring.
  rewrite sqrt_pow2 by (apply sin_ge_0; lra).
  rewrite asin_sin by lra. field.
Qed.

Lemma round_2_north : round 0.996 2 = 1.
Proof.
  unfold round. rewrite (round_half_even_at (0.996 * 10 ^ 2) 100).
  - simpl. lra.
  - simpl. lra.
Qed.

Lemma search_milk_kiosk :
  search_cursor "milk" 0 0 0.996 [kiosk]
  = Ok [response kiosk 0.996 "Milk" 2.5 5].
Proof.
  unfold search_cursor. cbn [scan].
  rewrite (visit_in_range "milk" 0 0 0.996 kiosk (SNum (NInt 0))
             (SNum (NFloat north_lat)) 0.996 milk "Milk"); try reflexivity.
  - apply haversine_north.
  - unfold matches. cbn [kiosk Store.inventory get filter].
    rewrite is_match_true by (first [reflexivity | cbn; lra]). discriminate.
  - unfold matches. cbn [kiosk Store.inventory get filter].
    rewrite is_match_true by (first [reflexivity | cbn; lra]). reflexivity.
Qed.

Lemma make_response_distance s d best r :
  make_response s d best = Ok r -> distance_km r = round d 2.
Proof.
  unfold make_response. destruct (Item.product_title best); [|discriminate].
  intros H. injection H as <-. reflexivity.
Qed.

(** C10: every result comes from a store whose distance, computed and not
    yet rounded, is at most [radius_km]; the result reports that distance
    rounded to two decimals, so at most [radius_km + 0.005]; and a reported
    distance above [radius_km] does occur. *)
Theorem reported_distance_after_filter :
  (forall q lat lng radius_km cursor out r,
      search_cursor q lat lng radius_km cursor = Ok out -> In r out ->
      exists s x y d,
        In s cursor
        /\ get_coordinates s = CArray [x; y]
        /\ haversine (deg lng) (deg lat) x y = Ok d
        /\ d <= radius_km
        /\ distance_km r = round d 2
        /\ distance_km r <= radius_km + 0.005)
  /\ (exists q lat lng radius_km cursor r,
        search_cursor q lat lng radius_km cursor = Ok [r]
        /\ radius_km < distance_km r).
Proof.
  split.
  - intros q lat lng radius_km cursor out r H Hin. unfold search_cursor in H.
    destruct (scan q lat lng radius_km cursor []) as [results|e] eqn:Es;
      cbn [bind] in H; [|discriminate].
    injection H as <-.
    assert (Hr : In r results).
    { eapply Permutation_in; [apply sorted_perm | exact Hin]. }
    destruct (scan_results _ _ _ _ _ _ _ Es Hr) as (s & Hs & Hv).
    destruct (visit_some _ _ _ _ _ _ Hv) as (x & y & d & best & Hc & Hd & Hle & _ & Hm).
    apply make_response_distance in Hm.
    exists s, x, y, d. repeat split; auto.
    rewrite Hm. pose proof (round_2_near d). lra.
  - exists "milk"%string, 0, 0, 0.996, [kiosk],
      (response kiosk 0.996 "Milk" 2.5 5).
    split; [exact search_milk_kiosk|].
    cbn [response distance_km]. rewrite round_2_north. lra.
Qed.

(** ** The query sent to the database *)

Lemma visit_dollar_stationer :
  visit "$5" 0 0 50 stationer
  = Ok (Some (response stationer 0 "$5 coupon" 5 1)).
Proof.
  assert (Hm : matches "$5" stationer = [coupon]).
  { unfold matches. cbn [stationer Store.inventory get filter].
    rewrite is_match_true by (first [reflexivity | cbn; lra]). reflexivity. }
  rewrite (visit_in_range "$5" 0 0 50 stationer (SNum (NInt 0)) (SNum (NInt 0))
             0 coupon "$5 coupon"); try reflexivity.
  - apply haversine_same_point; reflexivity.
  - lra.
  - rewrite Hm. discriminate.
  - rewrite Hm. reflexivity.
Qed.

(** C3: for the query ["$5"] the database hands over no store, though the
    loop alone, run over the store that sells the ["$5 coupon"], returns
    it: the pattern [$5] asks for a [5] after the end of the title. *)
Theorem regex_query_drops_matching_store :
  Mongo.parse "$5" = Some [Mongo.One Mongo.Eol; Mongo.One (Mongo.Lit "5")]
  /\ Mongo.find "$5" [stationer] = Some []
  /\ search_product (Some [stationer]) "$5" 0 0 50 = Some (Ok [])
  /\ search_cursor "$5" 0 0 50 [stationer]
     = Ok [response stationer 0 "$5 coupon" 5 1].
Proof.
  assert (Hf : Mongo.find "$5" [stationer] = Some []) by reflexivity.
  split; [reflexivity|]. split; [exact Hf|]. split.
  - unfold search_product. rewrite Hf. reflexivity.
  - unfold search_cursor. cbn [scan]. rewrite visit_dollar_stationer.
    reflexivity.
Qed.

(** A plain query is its own pattern, and the pattern finds it where the
    substring test finds it once the letters A-Z are lowered, which on
    ASCII text is the test of the loop: there the two layers part only on
    the characters that the pattern syntax reads as operators. *)
Lemma parse_from_plain q acc :
  plain_query q = true ->
  Mongo.parse_from q acc false = Some (rev acc ++ literal q).
Proof.
  unfold plain_query, literal. revert acc.
  induction q as [|c q IH]; intros acc H; cbn [list_ascii_of_string forallb map] in *.
  - cbn. now rewrite app_nil_r.
  - apply andb_true_iff in H as [Hc Hq]. unfold plain_char in Hc.
    apply andb_true_iff in Hc as [Ha Hm]. apply negb_true_iff in Hm.
    cbn [existsb] in Hm. repeat (apply orb_false_iff in Hm as [? Hm]).
    cbn [Mongo.parse_from]. rewrite Ha. cbn [negb existsb].
    repeat match goal with
           | E : Ascii.eqb c ?x = false |- _ => rewrite E; clear E
           end.
    cbn [orb]. rewrite IH by exact Hq. cbn [rev]. now rewrite <- app_assoc.
Qed.

Lemma match_here_literal q bol t :
  Mongo.match_here (literal q) bol t = starts_with (lower_letters q) (lower_letters t).
Proof.
  unfold literal. revert bol t.
  induction q as [|a q IH]; intros bol t; [reflexivity|].
  cbn [list_ascii_of_string map Mongo.match_here lower_letters starts_with].
  destruct t as [|c t]; [reflexivity|].
  cbn [lower_letters Mongo.atom_ok]. now rewrite IH.
Qed.

Lemma search_from_literal q bol t :
  Mongo.search_from (literal q) bol t = contains (lower_letters q) (lower_letters t).
Proof.
  revert bol. induction t as [|c t IH]; intros bol;
    cbn [Mongo.search_from lower_letters contains]; rewrite match_here_literal.
  - reflexivity.
  - now rewrite IH.
Qed.

Lemma plain_query_is_substring_test q title :
  plain_query q = true ->
  exists re,
    Mongo.parse q = Some re
    /\ Mongo.regex_search re title
       = contains (lower_letters q) (lower_letters title).
Proof.
  intros H. exists (literal q). split.
  - unfold Mongo.parse. now rewrite parse_from_plain.
  - apply search_from_literal.
Qed.

(* ================================================================= *)
(** * Further properties of [haversine] *)

Lemma asin_nonneg x : 0 <= x <= 1 -> 0 <= Ratan.asin x.
Proof.
  intros Hx. destruct (Rle_or_lt 0 (Ratan.asin x)) as [H|H]; [exact H|].
  exfalso. pose proof (asin_bound x) as Hb. pose proof PI_RGT_0 as HPI.
  assert (Hs : sin (Ratan.asin x) < 0) by (apply sin_lt_0_var; lra).
  rewrite sin_asin in Hs by lra. lra.
Qed.

(** Whatever the arguments, a distance that is returned lies between 0
    and half the circumference of the sphere. *)
Lemma haversine_range lon1 lat1 lon2 lat2 km :
  haversine lon1 lat1 lon2 lat2 = Ok km -> 0 <= km <= 6367 * PI.
Proof.
  destruct lon1 as [|a|?], lat1 as [|b|?], lon2 as [|c|?], lat2 as [|d|?];
    try discriminate.
  rewrite haversine_numbers. cbv zeta. intros H. injection H as <-.
  match goal with |- context [Ratan.asin ?v] => set (r := v) end.
  assert (Hr : 0 <= r <= 1) by (apply sqrt_unit, hav_arg_bounds).
  pose proof (asin_nonneg r Hr). pose proof (asin_bound r). lra.
Qed.


(* ================================================================= *)
(** * Further properties of the search loop *)

Lemma best_offer_in ms best : best_offer ms = Ok best -> In best ms.
Proof.
  unfold best_offer. destruct (sorted num_lt price_key ms) as [|b rest] eqn:Es;
    [discriminate|].
  intros H. injection H as <-.
  eapply Permutation_in; [apply (sorted_perm _ _ num_lt price_key ms)|].
  rewrite Es. now left.
Qed.

Lemma coords_ok_false s :
  coords_ok s = false ->
  exists x y, get_coordinates s = CArray [x; y]
              /\ match x, y with SNum _, SNum _ => False | _, _ => True end.
Proof.
  unfold coords_ok. destruct (get_coordinates s) as [|[|x [|y [|z l]]]];
    try discriminate.
  intros H. exists x, y. split; [reflexivity|].
  destruct x, y; cbn in H; try discriminate; exact I.
Qed.

Lemma visit_unusable q lat lng radius_km s :
  coords_ok s = false -> visit q lat lng radius_km s = Raise TypeError.
Proof.
  intros H. apply coords_ok_false in H as (x & y & Hc & Hxy).
  unfold visit. rewrite Hc, haversine_not_numbers by exact Hxy. reflexivity.
Qed.

Lemma scan_cons q lat lng radius_km s cursor :
  scan q lat lng radius_km (s :: cursor) []
  = (o <- visit q lat lng radius_km s ;;
     rest <- scan q lat lng radius_km cursor [] ;;
     Ok (match o with Some r => r :: rest | None => rest end)).
Proof.
  cbn [scan]. destruct (visit q lat lng radius_km s) as [[r|]|e]; cbn [bind].
  - rewrite scan_acc. reflexivity.
  - destruct (scan q lat lng radius_km cursor []); reflexivity.
  - reflexivity.
Qed.

(** A store of unusable coordinates anywhere in the cursor keeps the loop
    from returning. *)
Lemma scan_fails_on_unusable q lat lng radius_km cursor doc :
  In doc cursor -> coords_ok doc = false ->
  exists e, scan q lat lng radius_km cursor [] = Raise e.
Proof.
  intros Hin Hdoc. induction cursor as [|s cursor IH]; [contradiction|].
  rewrite scan_cons.
  destruct (visit q lat lng radius_km s) as [o|e] eqn:Ev; cbn [bind];
    [|now exists e].
  destruct Hin as [->|Hin].
  - rewrite visit_unusable in Ev by exact Hdoc. discriminate.
  - destruct (IH Hin) as [e ->]. cbn [bind]. now exists e.
Qed.

(** X4: one store whose two coordinates are not both numbers (the default
    [[None, None]] of a missing key among them), anywhere in the cursor,
    keeps the whole search from returning: it ends in an exception. *)
Theorem search_fails_on_unusable_store
  (q : string) (lat lng radius_km : R) (cursor : list Store.t)
  (doc : Store.t) :
  In doc cursor -> coords_ok doc = false ->
  exists e, search_cursor q lat lng radius_km cursor = Raise e.
Proof.
  intros Hin Hdoc. unfold search_cursor.
  destruct (scan_fails_on_unusable q lat lng radius_km cursor doc Hin Hdoc)
    as [e ->].
  cbn [bind]. now exists e.
Qed.

Lemma make_response_fields s d best r :
  make_response s d best = Ok r ->
  store_id r = Store._id s /\ store_name r = Store.name s
  /\ address r = Store.address s
  /\ Item.product_title best = Some (product_title r)
  /\ price r = unit_price best
  /\ quantity r = int_of (get (Item.quantity best) (NInt 0)).
Proof.
  unfold make_response. destruct (Item.product_title best); [|discriminate].
  intros H0. injection H0 as <-. cbn. repeat split.
  unfold unit_price, float_of. now destruct (Item.price best).
Qed.

Lemma scan_passes q lat lng radius_km cursor results :
  scan q lat lng radius_km cursor [] = Ok results ->
  passes (fun s o => visit q lat lng radius_km s = Ok o) cursor results.
Proof.
  revert results. induction cursor as [|s cursor IH]; intros results.
  - cbn. intros H0. injection H0 as <-. constructor.
  - rewrite scan_cons.
    destruct (visit q lat lng radius_km s) as [o|e] eqn:Ev; cbn [bind];
      [|discriminate].
    destruct (scan q lat lng radius_km cursor []) as [rest|e]; cbn [bind];
      [|discriminate].
    intros H0. injection H0 as <-. specialize (IH rest eq_refl).
    destruct o as [r|]; [now apply passes_some | now apply passes_none].
Qed.

Lemma passes_length (A B : Type) (step : A -> option B -> Prop) l l' :
  passes step l l' -> (List.length l' <= List.length l)%nat.
Proof. induction 1; cbn [List.length]; lia. Qed.

(** X6: the search returns at most one result per store of the cursor:
    its results are, rearranged by the sort, what the passes of the loop
    appended, each pass over a store appending one result or none, in the
    order of the cursor. *)
Theorem search_one_result_per_store
  (q : string) (lat lng radius_km : R) (cursor : list Store.t)
  (out : list ProductSearchResponse) :
  search_cursor q lat lng radius_km cursor = Ok out ->
  exists results,
    passes (fun s o => visit q lat lng radius_km s = Ok o) cursor results
    /\ Permutation results out
    /\ (List.length out <= List.length cursor)%nat.
Proof.
  unfold search_cursor. intros Hs.
  destruct (scan q lat lng radius_km cursor []) as [results|e] eqn:Es;
    cbn [bind] in Hs; [|discriminate].
  injection Hs as <-. exists results.
  pose proof (scan_passes _ _ _ _ _ _ Es) as Hp.
  split; [exact Hp|]. split; [symmetry; apply sorted_perm|].
  rewrite (Permutation_length (sorted_perm _ _ pair_lt rank_key results)).
  eapply passes_length, Hp.
Qed.

(** X7: every result shows an entry of its own store that matches the
    query, with the store's identifier, name and address, the entry's
    title, unit price and quantity, and no matching entry of that store
    has a lower unit price. *)
Theorem search_result_is_cheapest_match
  (q : string) (lat lng radius_km : R) (cursor : list Store.t)
  (out : list ProductSearchResponse) (res : ProductSearchResponse) :
  search_cursor q lat lng radius_km cursor = Ok out -> In res out ->
  exists s item,
    In s cursor
    /\ In item (get (Store.inventory s) [])
    /\ match_policy q item
    /\ store_id res = Store._id s
    /\ store_name res = Store.name s
    /\ address res = Store.address s
    /\ Item.product_title item = Some (product_title res)
    /\ price res = unit_price item
    /\ quantity res = int_of (get (Item.quantity item) (NInt 0))
    /\ (forall m, In m (get (Store.inventory s) []) -> match_policy q m ->
          price res <= unit_price m).
Proof.
  unfold search_cursor. intros H Hin.
  destruct (scan q lat lng radius_km cursor []) as [results|e] eqn:Es;
    cbn [bind] in H; [|discriminate].
  injection H as <-.
  assert (Hr : In res results).
  { eapply Permutation_in; [apply sorted_perm | exact Hin]. }
  destruct (scan_results _ _ _ _ _ _ _ Es Hr) as (s & Hs & Hv).
  destruct (visit_some _ _ _ _ _ _ Hv)
    as (x & y & d & best & _ & _ & _ & Hb & Hm).
  apply make_response_fields in Hm as (Hid & Hn & Ha & Ht & Hp & Hq).
  pose proof (best_offer_in _ _ Hb) as Hbest.
  unfold matches in Hbest. apply filter_In in Hbest as [Hbi Hbm].
  assert (Hpol : match_policy q best) by now apply is_match_policy.
  exists s, best. repeat (split; [assumption|]).
  intros m Hmi Hmp.
  assert (Hmm : In m (matches q s)).
  { unfold matches. apply filter_In. split; [exact Hmi|].
    now apply is_match_policy. }
  destruct (best_offer_least (matches q s)) as (b' & Hb' & _ & Hleast).
  { intros E. rewrite E in Hmm. contradiction. }
  rewrite Hb in Hb'. injection Hb' as <-.
  rewrite Forall_forall in Hleast. rewrite Hp, <- !price_key_unit_price.
  now apply Hleast.
Qed.

Lemma Int_part_nonneg y : 0 <= y -> (0 <= Int_part y)%Z.
Proof.
  intros Hy. pose proof (Int_part_bounds y) as Hb.
  assert (H : (-1 < Int_part y)%Z) by (apply lt_IZR; lra). lia.
Qed.

Lemma round_nonneg d : 0 <= d -> 0 <= round d 2.
Proof.
  intros Hd. unfold round.
  assert (Hy : 0 <= d * 10 ^ 2) by (simpl; lra).
  pose proof (Int_part_nonneg _ Hy) as Hf.
  assert (Hz : (0 <= round_half_even (d * 10 ^ 2))%Z).
  { unfold round_half_even.
    destruct (Rlt_dec _ _); [exact Hf|].
    destruct (Rlt_dec _ _); [lia|].
    destruct (Z.even _); lia. }
  apply IZR_le in Hz. replace (10 ^ 2) with 100 in * by (simpl; lra). lra.
Qed.

(** X8: no result reports a negative distance or a negative quantity. *)
Theorem search_result_fields_not_negative
  (q : string) (lat lng radius_km : R) (cursor : list Store.t)
  (out : list ProductSearchResponse) (res : ProductSearchResponse) :
  search_cursor q lat lng radius_km cursor = Ok out -> In res out ->
  0 <= distance_km res /\ (0 <= quantity res)%Z.
Proof.
  unfold search_cursor. intros H Hin.
  destruct (scan q lat lng radius_km cursor []) as [results|e] eqn:Es;
    cbn [bind] in H; [|discriminate].
  injection H as <-.
  assert (Hr : In res results).
  { eapply Permutation_in; [apply sorted_perm | exact Hin]. }
  destruct (scan_results _ _ _ _ _ _ _ Es Hr) as (s & Hs & Hv).
  destruct (visit_some _ _ _ _ _ _ Hv)
    as (x & y & d & best & _ & Hd & _ & Hb & Hm).
  split.
  - rewrite (make_response_distance _ _ _ _ Hm).
    apply round_nonneg. eapply haversine_range, Hd.
  - apply make_response_fields in Hm as (_ & _ & _ & _ & _ & ->).
    apply best_offer_in in Hb. unfold matches in Hb.
    apply filter_In in Hb as [_ Hb]. apply is_match_policy in Hb as [_ Hb].
    unfold in_stock in Hb.
    destruct (get (Item.quantity best) (NInt 0)) as [z|r]; cbn [to_R int_of] in *.
    + apply lt_IZR in Hb. lia.
    + unfold trunc. destruct (Rle_dec 0 r); [|lra].
      apply Int_part_nonneg. lra.
Qed.

(** X9: a search with a negative radius that returns, returns the empty
    list: the distance of a result would be at most the radius and not
    negative. *)
Theorem search_negative_radius_empty
  (q : string) (lat lng radius_km : R) (cursor : list Store.t)
  (out : list ProductSearchResponse) :
  radius_km < 0 ->
  search_cursor q lat lng radius_km cursor = Ok out ->
  out = [].
Proof.
  intros Hr Hs. destruct out as [|res out]; [reflexivity|]. exfalso.
  unfold search_cursor in Hs.
  destruct (scan q lat lng radius_km cursor []) as [results|e] eqn:Es;
    cbn [bind] in Hs; [|discriminate].
  injection Hs as Hs.
  assert (Hres : In res results).
  { eapply Permutation_in; [apply (sorted_perm _ _ pair_lt rank_key)|].
    rewrite Hs. now left. }
  destruct (scan_results _ _ _ _ _ _ _ Es Hres) as (s & _ & Hv).
  destruct (visit_some _ _ _ _ _ _ Hv)
    as (x & y & d & best & _ & Hd & Hle & _).
  apply haversine_range in Hd. lra.
Qed.

(** Widening the radius keeps what a pass appended. *)
Lemma visit_wider q lat lng r1 r2 s o2 :
  r1 <= r2 ->
  visit q lat lng r2 s = Ok o2 ->
  visit q lat lng r1 s = Ok o2 \/ visit q lat lng r1 s = Ok None.
Proof.
  intros Hr. unfold visit.
  destruct (get_coordinates s) as [|[|x [|y [|z l]]]]; auto.
  destruct (haversine (deg lng) (deg lat) x y) as [d|e]; cbn [bind];
    [|discriminate].
  destruct (Rleb d r1) eqn:E1; [|now right].
  apply Rleb_true in E1.
  rewrite (proj2 (Rleb_true d r2)) by lra. now left.
Qed.

Lemma scan_wider q lat lng r1 r2 cursor results2 :
  r1 <= r2 ->
  scan q lat lng r2 cursor [] = Ok results2 ->
  exists results1,
    scan q lat lng r1 cursor [] = Ok results1 /\ incl results1 results2.
Proof.
  intros Hr. revert results2.
  induction cursor as [|s cursor IH]; intros results2.
  - cbn. intros H. injection H as <-. exists []. split; [reflexivity|].
    apply incl_refl.
  - rewrite !scan_cons.
    destruct (visit q lat lng r2 s) as [o2|e] eqn:Ev; cbn [bind]; [|discriminate].
    destruct (scan q lat lng r2 cursor []) as [rest2|e]; cbn [bind];
      [|discriminate].
    intros H. injection H as <-.
    destruct (IH rest2 eq_refl) as (rest1 & -> & Hincl).
    destruct (visit_wider q lat lng r1 r2 s o2 Hr Ev) as [->| ->]; cbn [bind].
    + eexists. split; [reflexivity|].
      destruct o2; [|exact Hincl].
      intros a [<-|Ha]; [now left | right; now apply Hincl].
    + eexists. split; [reflexivity|].
      destruct o2; [|exact Hincl]. now apply incl_tl.
Qed.

(** X11: a search that returns with one radius returns with every smaller
    radius too, and with results that are among those of the larger
    radius. *)
Theorem search_radius_monotone
  (q : string) (lat lng r1 r2 : R) (cursor : list Store.t)
  (out2 : list ProductSearchResponse) :
  r1 <= r2 ->
  search_cursor q lat lng r2 cursor = Ok out2 ->
  exists out1,
    search_cursor q lat lng r1 cursor = Ok out1 /\ incl out1 out2.
Proof.
  intros Hr. unfold search_cursor.
  destruct (scan q lat lng r2 cursor []) as [results2|e] eqn:Es; cbn [bind];
    [|discriminate].
  intros H. injection H as <-.
  destruct (scan_wider q lat lng r1 r2 cursor results2 Hr Es)
    as (results1 & -> & Hincl).
  cbn [bind]. eexists. split; [reflexivity|].
  intros a Ha.
  eapply Permutation_in; [symmetry; apply sorted_perm|].
  apply Hincl.
  eapply Permutation_in; [apply sorted_perm | exact Ha].
Qed.

Lemma is_match_same_text q q' item :
  same_text q q' -> is_match q item = is_match q' item.
Proof.
  intros Hq. apply lower_of_same_text in Hq. unfold is_match. now rewrite Hq.
Qed.

Lemma visit_same_text q q' lat lng radius_km s :
  same_text q q' ->
  visit q lat lng radius_km s = visit q' lat lng radius_km s.
Proof.
  intros H. unfold visit, matches.
  rewrite (filter_ext (is_match q) (is_match q')
             (fun item => is_match_same_text q q' item H)).
  reflexivity.
Qed.

(** X12: the letter case of the query does not matter: two queries that
    differ in case only give the same outcome, results and errors alike. *)
Theorem search_query_case_insensitive
  (q q' : string) (lat lng radius_km : R) (cursor : list Store.t) :
  same_text q q' ->
  search_cursor q lat lng radius_km cursor
  = search_cursor q' lat lng radius_km cursor.
Proof.
  intros H. unfold search_cursor. f_equal.
  generalize (@nil ProductSearchResponse) as acc.
  induction cursor as [|s cursor IH]; intros acc; [reflexivity|].
  cbn [scan]. rewrite (visit_same_text q q' lat lng radius_km s H).
  destruct (visit q' lat lng radius_km s) as [o|e]; cbn [bind];
    [apply IH | reflexivity].
Qed.

(* ================================================================= *)
(** * Properties of [create_store] *)

(** X14: a request that [create_store] accepts has an array of exactly two
    coordinates, of which nothing more is checked: when the two are not both
    numbers, no later search returns whose cursor yields a document with
    these coordinates. *)
Theorem accepted_store_can_break_search
  (db : option (list Store.t))
  (create_document : string -> StoreCreate.t -> result string)
  (store : StoreCreate.t) (id : string) :
  create_store db create_document store = Ok id ->
  exists x y,
    NewLocation.coordinates (StoreCreate.location store) = Some (JArray [x; y])
    /\ NewLocation.type (StoreCreate.location store) = Some (JStr "Point")
    /\ create_document "store"%string store = Ok id
    /\ (is_number x && is_number y = false ->
        forall doc cursor q lat lng radius_km,
          get_coordinates doc = CArray [x; y] -> In doc cursor ->
          exists e, search_cursor q lat lng radius_km cursor = Raise e).
Proof.
  unfold create_store. destruct db as [coll|]; [|discriminate].
  cbv zeta. unfold is_point, has_two_coordinates.
  destruct (NewLocation.type (StoreCreate.location store)) as [[| | |t| |]|];
    try discriminate.
  destruct (String.eqb t "Point") eqn:Et; [|discriminate].
  apply String.eqb_eq in Et. subst t.
  destruct (NewLocation.coordinates (StoreCreate.location store))
    as [[| | | |l|]|]; try discriminate.
  destruct l as [|x [|y [|z l]]]; try discriminate.
  cbn [List.length Nat.eqb andb negb].
  destruct (create_document "store"%string store) as [i|e] eqn:Ec; cbn [bind];
    [|discriminate].
  intros H0. injection H0 as ->. exists x, y. repeat (split; [reflexivity|]).
  intros Hxy doc cursor q lat lng radius_km Hdoc Hin.
  unfold search_cursor.
  destruct (scan_fails_on_unusable q lat lng radius_km cursor doc Hin)
    as [e ->]; [|cbn [bind]; now exists e].
  unfold coords_ok. now rewrite Hdoc.
Qed.

(* ================================================================= *)
(** * Properties of [list_stores] *)

Lemma lookup_none d k : Dict.lookup d k = None <-> ~ In k (Dict.keys d).
Proof.
  induction d as [|[k' v] d IH]; cbn.
  - tauto.
  - destruct (String.eqb k' k) eqn:E.
    + apply String.eqb_eq in E. split; [discriminate | intros H; tauto].
    + apply String.eqb_neq in E. rewrite IH. tauto.
Qed.

Lemma lookup_set_same d k v : Dict.lookup (Dict.set d k v) k = Some v.
Proof.
  induction d as [|[k' v'] d IH]; cbn.
  - now rewrite String.eqb_refl.
  - destruct (String.eqb k' k) eqn:E; cbn.
    + now rewrite String.eqb_refl.
    + now rewrite E.
Qed.

Lemma lookup_set_other d k v k' :
  k' <> k -> Dict.lookup (Dict.set d k v) k' = Dict.lookup d k'.
Proof.
  intros Hk. induction d as [|[k0 v0] d IH]; cbn.
  - apply String.eqb_neq in Hk. rewrite String.eqb_sym in Hk. now rewrite Hk.
  - destruct (String.eqb k0 k) eqn:E; cbn.
    + apply String.eqb_eq in E. subst k0.
      assert (E' : String.eqb k k' = false)
        by (apply String.eqb_neq; congruence).
      now rewrite E'.
    + now rewrite IH.
Qed.

Lemma keys_set_in d k v a :
  In a (Dict.keys (Dict.set d k v)) -> a = k \/ In a (Dict.keys d).
Proof.
  induction d as [|[k' v'] d IH]; cbn.
  - intros [<-|[]]. now left.
  - destruct (String.eqb k' k) eqn:E; cbn.
    + apply String.eqb_eq in E. subst k'. intros [<-|H]; auto.
    + intros [<-|H]; [auto|]. destruct (IH H); auto.
Qed.

Lemma keys_set_NoDup d k v :
  NoDup (Dict.keys d) -> NoDup (Dict.keys (Dict.set d k v)).
Proof.
  induction d as [|[k' v'] d IH]; cbn; intros H.
  - repeat constructor. intros [].
  - inversion H as [|? ? Hk Hd]; subst.
    destruct (String.eqb k' k) eqn:E; cbn.
    + apply String.eqb_eq in E. subst k'. now constructor.
    + apply String.eqb_neq in E. constructor; [|now apply IH].
      intros Hin. apply keys_set_in in Hin as [Hin|Hin]; contradiction.
Qed.

Lemma lookup_pop_other d k k' :
  k' <> k -> Dict.lookup (Dict.pop d k) k' = Dict.lookup d k'.
Proof.
  intros Hk. induction d as [|[k0 v0] d IH]; cbn; [reflexivity|].
  destruct (String.eqb k0 k) eqn:E; cbn.
  - apply String.eqb_eq in E. subst k0.
    assert (E' : String.eqb k k' = false) by (apply String.eqb_neq; congruence).
    now rewrite E'.
  - now rewrite IH.
Qed.

Lemma keys_pop_incl d k a : In a (Dict.keys (Dict.pop d k)) -> In a (Dict.keys d).
Proof.
  induction d as [|[k0 v0] d IH]; cbn; [tauto|].
  destruct (String.eqb k0 k); cbn; [tauto|]. intros [H|H]; [now left|].
  right. now apply IH.
Qed.

Lemma keys_pop_NoDup d k :
  NoDup (Dict.keys d) ->
  NoDup (Dict.keys (Dict.pop d k)) /\ ~ In k (Dict.keys (Dict.pop d k)).
Proof.
  induction d as [|[k0 v0] d IH]; cbn; intros H.
  - split; [constructor | tauto].
  - inversion H as [|? ? Hk0 Hd]; subst.
    destruct (String.eqb k0 k) eqn:E; cbn.
    + apply String.eqb_eq in E. subst k0. now split.
    + apply String.eqb_neq in E. destruct (IH Hd) as [Hn Hk]. split.
      * constructor; [|exact Hn]. intros Hin. apply Hk0.
        eapply keys_pop_incl, Hin.
      * intros [H'|H']; [contradiction | now apply Hk].
Qed.

Lemma convert_id_spec repr s :
  NoDup (Dict.keys s) ->
  Dict.lookup (convert_id repr s) "_id" = None
  /\ Dict.lookup (convert_id repr s) "id"
     = Some (VStr (str repr (get (Dict.lookup s "_id") VNone)))
  /\ (forall k, k <> "id"%string -> k <> "_id"%string ->
        Dict.lookup (convert_id repr s) k = Dict.lookup s k)
  /\ NoDup (Dict.keys (convert_id repr s)).
Proof.
  intros Hs. unfold convert_id. cbv zeta.
  set (v := VStr (str repr (get (Dict.lookup s "_id") VNone))).
  pose proof (keys_set_NoDup s "id" v Hs) as Hset.
  destruct (keys_pop_NoDup (Dict.set s "id" v) "_id" Hset) as [Hn Hk].
  split; [now apply lookup_none|]. split; [|split; [|exact Hn]].
  - rewrite lookup_pop_other by discriminate. apply lookup_set_same.
  - intros k H1 H2. rewrite lookup_pop_other by exact H2.
    now apply lookup_set_other.
Qed.

(** X15: [list_stores] answers with as many documents as the collection
    holds and in its order; each has lost the key ["_id"] and gained, or
    had overwritten, the key ["id"] with the text of the old ["_id"] (the
    text ["None"] when there was none); every other key holds what it
    held. *)
Theorem list_stores_moves_id
  (repr : value -> string) (stores : list Dict.t) :
  Forall (fun s => NoDup (Dict.keys s)) stores ->
  exists out,
    list_stores repr (Some stores) = Ok out
    /\ Forall2
         (fun s s' =>
            Dict.lookup s' "_id" = None
            /\ Dict.lookup s' "id"
               = Some (VStr (str repr (get (Dict.lookup s "_id") VNone)))
            /\ (Dict.lookup s "_id" = None ->
                Dict.lookup s' "id" = Some (VStr "None"))
            /\ (forall k, k <> "id"%string -> k <> "_id"%string ->
                  Dict.lookup s' k = Dict.lookup s k)
            /\ NoDup (Dict.keys s'))
         stores out.
Proof.
  intros Hs. exists (map (convert_id repr) stores). split; [reflexivity|].
  induction Hs as [|s stores Hd Hs IH]; cbn [map]; constructor; [|exact IH].
  destruct (convert_id_spec repr s Hd) as (H1 & H2 & H3 & H4).
  repeat (split; [assumption|]). split; [|split; assumption].
  intros Hnone. rewrite H2, Hnone. reflexivity.
Qed.

(* ================================================================= *)
(** * Properties of [test_database] *)

(** X16: the fields [database_url] and [database_name] of the report tell
    only whether the two environment variables are set and not empty: what
    the branch for a connected database wrote there, the database's name
    included, is overwritten.  The report lists at most ten collections,
    the first ones the database names, and none without a database or when
    listing fails. *)
Theorem report_reads_environment
  (db : option Database.t) (DATABASE_URL DATABASE_NAME : option string) :
  Report.database_url (test_database db DATABASE_URL DATABASE_NAME)
  = Some (if is_set DATABASE_URL then "✅ Set" else "❌ Not Set")%string
  /\ Report.database_name (test_database db DATABASE_URL DATABASE_NAME)
     = Some (if is_set DATABASE_NAME then "✅ Set" else "❌ Not Set")%string
  /\ (List.length
        (Report.collections (test_database db DATABASE_URL DATABASE_NAME))
      <= 10)%nat
  /\ Report.collections (test_database db DATABASE_URL DATABASE_NAME)
     = match db with
       | Some handle =>
           match Database.list_collection_names handle with
           | Names collections => firstn 10 collections
           | Fails _ => []
           end
       | None => []
       end.
Proof.
  unfold test_database.
  destruct db as [[name [collections|message]]|];
    cbn [Database.list_collection_names Database.name Report.database_url
         Report.database_name Report.collections Report.backend
         Report.database Report.connection_status List.length];
    repeat split; try lia.
  apply firstn_le_length.
Qed.

(* ================================================================= *)
(** * The order of the cursor *)

Lemma scan_permuted q lat lng radius_km cursor cursor' :
  Permutation cursor cursor' ->
  forall results,
    scan q lat lng radius_km cursor [] = Ok results ->
    exists results',
      scan q lat lng radius_km cursor' [] = Ok results'
      /\ Permutation results results'.
Proof.
  induction 1 as [|s c c' Hp IH|s t c|c c' c'' H1 IH1 H2 IH2]; intros results.
  - intros H. exists results. split; [exact H | reflexivity].
  - rewrite !scan_cons.
    destruct (visit q lat lng radius_km s) as [o|e]; cbn [bind]; [|discriminate].
    destruct (scan q lat lng radius_km c []) as [rest|e]; cbn [bind];
      [|discriminate].
    intros H. injection H as <-.
    destruct (IH rest eq_refl) as (rest' & -> & Hperm). cbn [bind].
    eexists. split; [reflexivity|].
    destruct o; [now apply perm_skip | exact Hperm].
  - rewrite !scan_cons.
    destruct (visit q lat lng radius_km t) as [ot|e]; cbn [bind]; [|discriminate].
    destruct (visit q lat lng radius_km s) as [os|e]; cbn [bind]; [|discriminate].
    destruct (scan q lat lng radius_km c []) as [rest|e]; cbn [bind];
      [|discriminate].
    intros H. injection H as <-.
    eexists. split; [reflexivity|].
    destruct ot, os; try reflexivity. apply perm_swap.
  - intros H. destruct (IH1 results H) as (r' & H' & Hp1).
    destruct (IH2 r' H') as (r'' & H'' & Hp2).
    exists r''. split; [exact H'' | now transitivity r'].
Qed.

(** X17: the order in which the cursor yields the stores decides neither
    whether the search returns nor which results it returns: over a
    rearranged cursor the search returns a rearrangement of the same
    results. *)
Theorem search_cursor_order_irrelevant
  (q : string) (lat lng radius_km : R) (cursor cursor' : list Store.t)
  (out : list ProductSearchResponse) :
  Permutation cursor cursor' ->
  search_cursor q lat lng radius_km cursor = Ok out ->
  exists out',
    search_cursor q lat lng radius_km cursor' = Ok out'
    /\ Permutation out out'.
Proof.
  intros Hp. unfold search_cursor.
  destruct (scan q lat lng radius_km cursor []) as [results|e] eqn:Es;
    cbn [bind]; [|discriminate].
  intros H. injection H as <-.
  destruct (scan_permuted q lat lng radius_km cursor cursor' Hp results Es)
    as (results' & -> & Hperm).
  cbn [bind]. eexists. split; [reflexivity|].
  rewrite (sorted_perm _ _ pair_lt rank_key results), Hperm.
  symmetry. apply sorted_perm.
Qed.

(* ================================================================= *)
(** * Sample runs *)

Lemma matches_milk_kiosk : matches "milk" kiosk = [milk].
Proof.
  unfold matches. cbn [kiosk Store.inventory get filter].
  rewrite is_match_true by (first [reflexivity | cbn; lra]). reflexivity.
Qed.

Lemma visit_beyond_radius q lat lng radius_km s x y d :
  get_coordinates s = CArray [x; y] ->
  haversine (deg lng) (deg lat) x y = Ok d ->
  radius_km < d ->
  visit q lat lng radius_km s = Ok None.
Proof.
  intros Hc Hd Hr. unfold visit. rewrite Hc, Hd. cbn [bind].
  now rewrite (proj2 (Rleb_false d radius_km) Hr).
Qed.

Lemma search_milk_negative_radius :
  search_cursor "milk" 0 0 (-1) [dairy; grocer] = Ok [].
Proof.
  unfold search_cursor. cbn [scan].
  rewrite (visit_beyond_radius "milk" 0 0 (-1) dairy
             (SNum (NInt 0)) (SNum (NInt 0)) 0);
    [|reflexivity | apply haversine_same_point; reflexivity | lra].
  cbn [bind].
  rewrite (visit_beyond_radius "milk" 0 0 (-1) grocer
             (SNum (NInt 0)) (SNum (NInt 0)) 0);
    [|reflexivity | apply haversine_same_point; reflexivity | lra].
  reflexivity.
Qed.

End Properties.

(* ================================================================= *)
(** * The properties at sample inputs *)

#[global] Existing Instance ascii_only.

Lemma best_offer_first_cheapest_witness :
  [milk; oat_milk; widget_front; oat_milk] <> []
  /\ exists best pre post,
       best_offer [milk; oat_milk; widget_front; oat_milk] = Ok best
       /\ [milk; oat_milk; widget_front; oat_milk] = pre ++ best :: post
       /\ Forall (fun m => unit_price best < unit_price m) pre
       /\ Forall (fun m => unit_price best <= unit_price m) post
       /\ (forall f : Item.t -> Item.t,
             (forall x, Item.price (f x) = Item.price x) ->
             best_offer (map f [milk; oat_milk; widget_front; oat_milk])
             = Ok (f best)).
Proof.
  split; [discriminate|].
  apply (best_offer_first_cheapest [milk; oat_milk; widget_front; oat_milk]).
  discriminate.
Defined.


Lemma radius_filter_inclusive_witness :
  get_coordinates kiosk = CArray [SNum (NInt 0); SNum (NFloat north_lat)]
  /\ haversine (deg 0) (deg 0) (SNum (NInt 0)) (SNum (NFloat north_lat))
     = Ok 0.996
  /\ matches "milk" kiosk <> []
  /\ Forall (fun item => Item.product_title item <> None) (matches "milk" kiosk)
  /\ (forall radius_km : R,
        ((exists r, visit "milk" 0 0 radius_km kiosk = Ok (Some r))
         <-> 0.996 <= radius_km)
        /\ (radius_km < 0.996 -> visit "milk" 0 0 radius_km kiosk = Ok None)
        /\ (0.996 = radius_km ->
            exists r, visit "milk" 0 0 radius_km kiosk = Ok (Some r))
        /\ (0.996 = radius_km + 0.01 ->
            visit "milk" 0 0 radius_km kiosk = Ok None))
  /\ (exists r, visit "milk" 0 0 0.996 kiosk = Ok (Some r))
  /\ visit "milk" 0 0 0.986 kiosk = Ok None.
Proof.
  assert (Hc : get_coordinates kiosk
               = CArray [SNum (NInt 0); SNum (NFloat north_lat)])
    by reflexivity.
  assert (Hm : matches "milk" kiosk <> [])
    by (rewrite matches_milk_kiosk; discriminate).
  assert (Ht : Forall (fun item => Item.product_title item <> None)
                 (matches "milk" kiosk))
    by (rewrite matches_milk_kiosk; repeat constructor; discriminate).
  pose proof (radius_filter_inclusive "milk" 0 0 kiosk (SNum (NInt 0))
                (SNum (NFloat north_lat)) 0.996 Hc haversine_north Hm Ht)
    as Hall.
  split; [exact Hc|]. split; [exact haversine_north|]. split; [exact Hm|].
  split; [exact Ht|]. split; [exact Hall|]. split.
  - apply (Hall 0.996). reflexivity.
  - apply (Hall 0.986). lra.
Defined.

Lemma search_results_ranked_witness :
  search_cursor "milk" 0 0 50 [dairy; grocer]
  = Ok [response grocer 0 "Oat milk" 1.5 2; response dairy 0 "Milk" 2.5 5]
  /\ exists results,
       scan "milk" 0 0 50 [dairy; grocer] [] = Ok results
       /\ Permutation results
            [response grocer 0 "Oat milk" 1.5 2; response dairy 0 "Milk" 2.5 5]
       /\ StronglySorted rank_le
            [response grocer 0 "Oat milk" 1.5 2; response dairy 0 "Milk" 2.5 5]
       /\ (forall l1 r1 l2 r2 l3,
             [response grocer 0 "Oat milk" 1.5 2; response dairy 0 "Milk" 2.5 5]
             = l1 ++ r1 :: l2 ++ r2 :: l3 ->
             distance_km r1 <= distance_km r2
             /\ (distance_km r1 = distance_km r2 -> price r1 <= price r2))
       /\ (forall k,
             filter (has_rank k)
               [response grocer 0 "Oat milk" 1.5 2; response dairy 0 "Milk" 2.5 5]
             = filter (has_rank k) results).
Proof.
  split; [exact search_milk_dairy_grocer|].
  exact (search_results_ranked "milk" 0 0 50 [dairy; grocer] _
           search_milk_dairy_grocer).
Defined.

Lemma search_fails_on_unusable_store_witness :
  In shop_without_location [dairy; shop_without_location; grocer]
  /\ coords_ok shop_without_location = false
  /\ exists e,
       search_cursor "milk" 0 0 50 [dairy; shop_without_location; grocer]
       = Raise e.
Proof.
  assert (Hin : In shop_without_location
                  [dairy; shop_without_location; grocer])
    by (right; left; reflexivity).
  assert (Hdoc : coords_ok shop_without_location = false) by reflexivity.
  split; [exact Hin|]. split; [exact Hdoc|].
  exact (search_fails_on_unusable_store "milk" 0 0 50
           [dairy; shop_without_location; grocer] shop_without_location
           Hin Hdoc).
Defined.

Lemma search_one_result_per_store_witness :
  search_cursor "milk" 0 0 50 [dairy; grocer]
  = Ok [response grocer 0 "Oat milk" 1.5 2; response dairy 0 "Milk" 2.5 5]
  /\ exists results,
       passes (fun s o => visit "milk" 0 0 50 s = Ok o) [dairy; grocer] results
       /\ Permutation results
            [response grocer 0 "Oat milk" 1.5 2; response dairy 0 "Milk" 2.5 5]
       /\ (List.length
             [response grocer 0 "Oat milk" 1.5 2; response dairy 0 "Milk" 2.5 5]
           <= List.length [dairy; grocer])%nat.
Proof.
  split; [exact search_milk_dairy_grocer|].
  exact (search_one_result_per_store "milk" 0 0 50 [dairy; grocer] _
           search_milk_dairy_grocer).
Defined.

Lemma search_result_is_cheapest_match_witness :
  search_cursor "milk" 0 0 50 [dairy; grocer]
  = Ok [response grocer 0 "Oat milk" 1.5 2; response dairy 0 "Milk" 2.5 5]
  /\ In (response dairy 0 "Milk" 2.5 5)
        [response grocer 0 "Oat milk" 1.5 2; response dairy 0 "Milk" 2.5 5]
  /\ exists s item,
       In s [dairy; grocer]
       /\ In item (get (Store.inventory s) [])
       /\ match_policy "milk" item
       /\ store_id (response dairy 0 "Milk" 2.5 5) = Store._id s
       /\ store_name (response dairy 0 "Milk" 2.5 5) = Store.name s
       /\ address (response dairy 0 "Milk" 2.5 5) = Store.address s
       /\ Item.product_title item
          = Some (product_title (response dairy 0 "Milk" 2.5 5))
       /\ price (response dairy 0 "Milk" 2.5 5) = unit_price item
       /\ quantity (response dairy 0 "Milk" 2.5 5)
          = int_of (get (Item.quantity item) (NInt 0))
       /\ (forall m, In m (get (Store.inventory s) []) ->
             match_policy "milk" m ->
             price (response dairy 0 "Milk" 2.5 5) <= unit_price m).
Proof.
  assert (Hin : In (response dairy 0 "Milk" 2.5 5)
                  [response grocer 0 "Oat milk" 1.5 2;
                   response dairy 0 "Milk" 2.5 5])
    by (right; left; reflexivity).
  split; [exact search_milk_dairy_grocer|]. split; [exact Hin|].
  exact (search_result_is_cheapest_match "milk" 0 0 50 [dairy; grocer] _ _
           search_milk_dairy_grocer Hin).
Defined.

Lemma search_result_fields_not_negative_witness :
  search_cursor "milk" 0 0 50 [dairy; grocer]
  = Ok [response grocer 0 "Oat milk" 1.5 2; response dairy 0 "Milk" 2.5 5]
  /\ In (response dairy 0 "Milk" 2.5 5)
        [response grocer 0 "Oat milk" 1.5 2; response dairy 0 "Milk" 2.5 5]
  /\ 0 <= distance_km (response dairy 0 "Milk" 2.5 5)
  /\ (0 <= quantity (response dairy 0 "Milk" 2.5 5))%Z.
Proof.
  assert (Hin : In (response dairy 0 "Milk" 2.5 5)
                  [response grocer 0 "Oat milk" 1.5 2;
                   response dairy 0 "Milk" 2.5 5])
    by (right; left; reflexivity).
  split; [exact search_milk_dairy_grocer|]. split; [exact Hin|].
  exact (search_result_fields_not_negative "milk" 0 0 50 [dairy; grocer] _ _
           search_milk_dairy_grocer Hin).
Defined.

Lemma search_negative_radius_empty_witness :
  -1 < 0
  /\ search_cursor "milk" 0 0 (-1) [dairy; grocer] = Ok []
  /\ @nil ProductSearchResponse = [].
Proof.
  assert (Hr : -1 < 0) by lra.
  split; [exact Hr|]. split; [exact search_milk_negative_radius|].
  exact (search_negative_radius_empty "milk" 0 0 (-1) [dairy; grocer] []
           Hr search_milk_negative_radius).
Defined.

Lemma search_radius_monotone_witness :
  -1 <= 50
  /\ search_cursor "milk" 0 0 50 [dairy; grocer]
     = Ok [response grocer 0 "Oat milk" 1.5 2; response dairy 0 "Milk" 2.5 5]
  /\ exists out1,
       search_cursor "milk" 0 0 (-1) [dairy; grocer] = Ok out1
       /\ incl out1
            [response grocer 0 "Oat milk" 1.5 2; response dairy 0 "Milk" 2.5 5].
Proof.
  assert (Hr : -1 <= 50) by lra.
  split; [exact Hr|]. split; [exact search_milk_dairy_grocer|].
  exact (search_radius_monotone "milk" 0 0 (-1) 50 [dairy; grocer] _ Hr
           search_milk_dairy_grocer).
Defined.

Lemma search_query_case_insensitive_witness :
  same_text "MILK" "milk"
  /\ search_cursor "MILK" 0 0 50 [dairy; grocer]
     = search_cursor "milk" 0 0 50 [dairy; grocer].
Proof.
  assert (H : same_text "MILK" "milk") by (apply lower_same_text; reflexivity).
  split; [exact H|].
  exact (search_query_case_insensitive "MILK" "milk" 0 0 50 [dairy; grocer] H).
Defined.

Lemma accepted_store_can_break_search_witness :
  create_store (Some []) (fun _ _ => Ok "s6"%string) null_island
  = Ok "s6"%string
  /\ exists x y,
       NewLocation.coordinates (StoreCreate.location null_island)
       = Some (JArray [x; y])
       /\ NewLocation.type (StoreCreate.location null_island)
          = Some (JStr "Point")
       /\ (fun _ _ => Ok "s6"%string) "store"%string null_island
          = Ok "s6"%string
       /\ (is_number x && is_number y = false ->
           forall doc cursor q lat lng radius_km,
             get_coordinates doc = CArray [x; y] -> In doc cursor ->
             exists e, search_cursor q lat lng radius_km cursor = Raise e).
Proof.
  assert (Hc : create_store (Some []) (fun _ _ => Ok "s6"%string) null_island
               = Ok "s6"%string) by reflexivity.
  split; [exact Hc|].
  exact (accepted_store_can_break_search (Some [])
           (fun _ _ => Ok "s6"%string) null_island "s6" Hc).
Defined.

Lemma list_stores_moves_id_witness :
  Forall (fun s => NoDup (Dict.keys s)) [raw_store]
  /\ exists out,
       list_stores (fun _ => ""%string) (Some [raw_store]) = Ok out
       /\ Forall2
            (fun s s' =>
               Dict.lookup s' "_id" = None
               /\ Dict.lookup s' "id"
                  = Some (VStr (str (fun _ => ""%string)
                                  (get (Dict.lookup s "_id") VNone)))
               /\ (Dict.lookup s "_id" = None ->
                   Dict.lookup s' "id" = Some (VStr "None"))
               /\ (forall k, k <> "id"%string -> k <> "_id"%string ->
                     Dict.lookup s' k = Dict.lookup s k)
               /\ NoDup (Dict.keys s'))
            [raw_store] out.
Proof.
  assert (H : Forall (fun s => NoDup (Dict.keys s)) [raw_store]).
  { repeat constructor; cbn; intros H; repeat destruct H as [H|H];
      try discriminate; exact H. }
  split; [exact H|].
  exact (list_stores_moves_id (fun _ => ""%string) [raw_store] H).
Defined.

Lemma search_cursor_order_irrelevant_witness :
  Permutation [dairy; grocer] [grocer; dairy]
  /\ search_cursor "milk" 0 0 50 [dairy; grocer]
     = Ok [response grocer 0 "Oat milk" 1.5 2; response dairy 0 "Milk" 2.5 5]
  /\ exists out',
       search_cursor "milk" 0 0 50 [grocer; dairy] = Ok out'
       /\ Permutation
            [response grocer 0 "Oat milk" 1.5 2; response dairy 0 "Milk" 2.5 5]
            out'.
Proof.
  assert (Hp : Permutation [dairy; grocer] [grocer; dairy]) by apply perm_swap.
  split; [exact Hp|]. split; [exact search_milk_dairy_grocer|].
  exact (search_cursor_order_irrelevant "milk" 0 0 50 [dairy; grocer]
           [grocer; dairy] _ Hp search_milk_dairy_grocer).
Defined.
